(** * Shallow embedding of [src/load.js] (repository-insight-tracker)

    The action gathers per-day metrics of a repository and stores them as a
    time series ([stats.json] or [stats.csv]) committed to a branch of a
    storage repository.  This file embeds the dataset handling of
    [load.js]: [getInsightsFile], [generateFileContent],
    [ensureBranchExists], [commitFileToBranch] and the sequencing in [run].

    JavaScript strings are modelled as [string] (8-bit characters); numbers
    that the code stores are non-negative integers, modelled as [N]. *)

From Stdlib Require Import String Ascii List ZArith NArith Bool Lia.
From Stdlib Require Import Decimal DecimalN.
Import ListNotations.

Local Open Scope string_scope.
Local Set Warnings "-register-all".


(** ** String primitives used by the code *)

Definition LF : ascii := "010"%char.
Definition LFs : string := String LF EmptyString.

(** [s.split(sep)] for a one-character separator: [""] splits into [[""]]. *)
Fixpoint split_on (sep : ascii) (s : string) : list string :=
  match s with
  | EmptyString => [EmptyString]
  | String c rest =>
      if Ascii.eqb c sep then EmptyString :: split_on sep rest
      else match split_on sep rest with
           | [] => [String c EmptyString]
           | w :: ws => String c w :: ws
           end
  end.

(** [arr.join(sep)] *)
Fixpoint join (sep : string) (l : list string) : string :=
  match l with
  | [] => EmptyString
  | [x] => x
  | x :: xs => x ++ sep ++ join sep xs
  end.

(** JavaScript white space and line terminators in the 8-bit range:
    TAB, LF, VT, FF, CR, SPACE and NO-BREAK SPACE. *)
Definition is_ws (c : ascii) : bool :=
  let n := nat_of_ascii c in
  (9 <=? n)%nat && (n <=? 13)%nat || (n =? 32)%nat || (n =? 160)%nat.

(** [line.trim() === ""] *)
Fixpoint is_blank (s : string) : bool :=
  match s with
  | EmptyString => true
  | String c rest => is_ws c && is_blank rest
  end.

(** [s.startsWith(p)] *)
Fixpoint startsWith (p s : string) : bool :=
  match p, s with
  | EmptyString, _ => true
  | String _ _, EmptyString => false
  | String c p', String c' s' => Ascii.eqb c c' && startsWith p' s'
  end.

(** [s.toLowerCase()] on one character of a string, the characters being
    the code points U+0000-U+00FF.  In that range Unicode lowers A-Z and the
    Latin-1 capitals U+00C0-U+00DE other than U+00D7, each 32 up, and
    nothing else. *)
Definition lower_char (c : ascii) : ascii :=
  let n := nat_of_ascii c in
  if (((65 <=? n) && (n <=? 90)) || ((192 <=? n) && (n <=? 222) && negb (n =? 215)))%nat
  then ascii_of_nat (n + 32)%nat else c.

Fixpoint toLowerCase (s : string) : string :=
  match s with
  | EmptyString => EmptyString
  | String c rest => String (lower_char c) (toLowerCase rest)
  end.

(** [arr.findIndex(p)], [None] standing for [-1]. *)
Fixpoint findIndex {A} (p : A -> bool) (l : list A) : option nat :=
  match l with
  | [] => None
  | x :: xs => if p x then Some 0 else option_map S (findIndex p xs)
  end.

(** [arr[i] = x] for an index [i] inside the array (the only use in the
    code, with [i] returned by [findIndex]). *)
Fixpoint set_nth {A} (i : nat) (x : A) (l : list A) : list A :=
  match l, i with
  | [], _ => []
  | _ :: ys, O => x :: ys
  | y :: ys, S j => y :: set_nth j x ys
  end.

(** Decimal rendering of a non-negative integer ([String(n)]). *)
Fixpoint string_of_uint (d : uint) : string :=
  match d with
  | Nil => EmptyString
  | D0 d => String "0" (string_of_uint d)
  | D1 d => String "1" (string_of_uint d)
  | D2 d => String "2" (string_of_uint d)
  | D3 d => String "3" (string_of_uint d)
  | D4 d => String "4" (string_of_uint d)
  | D5 d => String "5" (string_of_uint d)
  | D6 d => String "6" (string_of_uint d)
  | D7 d => String "7" (string_of_uint d)
  | D8 d => String "8" (string_of_uint d)
  | D9 d => String "9" (string_of_uint d)
  end.

Definition string_of_N (n : N) : string := string_of_uint (N.to_uint n).

(** ** Records: the object [newEntry] built by [generateFileContent] *)

Record entry := mkEntry {
  date : string;
  stargazers : N;
  commits : N;
  contributors : N;
  traffic_views : N;
  traffic_uniques : N;
  clones_count : N;
  clones_uniques : N
}.

Definition csvHeaders : list string :=
  ["date"; "stargazers"; "commits"; "contributors"; "traffic_views";
   "traffic_uniques"; "clones_count"; "clones_uniques"].

(** [newEntry[header]] rendered by [join] (an absent key renders as ""). *)
Definition entry_field (e : entry) (header : string) : string :=
  if String.eqb header "date" then date e
  else if String.eqb header "stargazers" then string_of_N (stargazers e)
  else if String.eqb header "commits" then string_of_N (commits e)
  else if String.eqb header "contributors" then string_of_N (contributors e)
  else if String.eqb header "traffic_views" then string_of_N (traffic_views e)
  else if String.eqb header "traffic_uniques" then string_of_N (traffic_uniques e)
  else if String.eqb header "clones_count" then string_of_N (clones_count e)
  else if String.eqb header "clones_uniques" then string_of_N (clones_uniques e)
  else EmptyString.

(** [csvHeaders.map((header) => newEntry[header]).join(",")] *)
Definition csv_line (e : entry) : string :=
  join "," (map (entry_field e) csvHeaders).

Definition csv_header_line : string := join "," csvHeaders.

(** [existingContent.split("\n").filter((line) => line.trim() !== "")] *)
Definition csv_lines (s : string) : list string :=
  filter (fun line => negb (is_blank line)) (split_on LF s).

(** The CSV branch of [generateFileContent]. *)
Definition generate_csv (insightsFile : string) (newEntry : entry) : string :=
  let csvLines := csv_lines insightsFile in
  let csvLine := csv_line newEntry in
  match findIndex (fun line => startsWith (date newEntry) line) csvLines with
  | Some existingEntryIndex => join LFs (set_nth existingEntryIndex csvLine csvLines)
  | None => join LFs (csvLines ++ [csvLine])%list
  end.

Example csv_line_ex :
  csv_line (mkEntry "2024-01-01" 10 3 2 5 4 1 1) = "2024-01-01,10,3,2,5,4,1,1".
Proof. reflexivity. Qed.

Example generate_csv_ex :
  generate_csv (csv_header_line ++ LFs) (mkEntry "2024-01-01" 10 3 2 5 4 1 1)
  = csv_header_line ++ LFs ++ "2024-01-01,10,3,2,5,4,1,1".
Proof. reflexivity. Qed.

(** ** JSON values, [JSON.stringify(v, null, 2)] and [JSON.parse]

    [JSON.parse] and [JSON.stringify] are the JavaScript built-ins the code
    calls.  Numbers are integers here (a fraction or an exponent is outside
    the model and makes the parser fail); strings are 8-bit; objects are
    association lists in insertion order (JavaScript would enumerate
    integer-like keys first; no key of this program is integer-like). *)

Inductive json :=
| JNull
| JBool (b : bool)
| JNum (z : Z)
| JStr (s : string)
| JArr (items : list json)
| JObj (members : list (string * json)).

Definition DQ : ascii := "034"%char.
Definition BS : ascii := "092"%char.

Definition hex_digit (n : nat) : ascii :=
  if (n <? 10)%nat then ascii_of_nat (48 + n) else ascii_of_nat (87 + n).

(** One character of [QuoteJSONString]. *)
Definition escape_char (c : ascii) : string :=
  let n := nat_of_ascii c in
  if Ascii.eqb c DQ then String BS (String DQ EmptyString)
  else if Ascii.eqb c BS then String BS (String BS EmptyString)
  else if (n =? 8)%nat then String BS "b"
  else if (n =? 9)%nat then String BS "t"
  else if (n =? 10)%nat then String BS "n"
  else if (n =? 12)%nat then String BS "f"
  else if (n =? 13)%nat then String BS "r"
  else if (n <? 32)%nat then
    String BS ("u00" ++ String (hex_digit (n / 16)) (String (hex_digit (n mod 16)) EmptyString))
  else String c EmptyString.

Fixpoint escape (s : string) : string :=
  match s with
  | EmptyString => EmptyString
  | String c rest => escape_char c ++ escape rest
  end.

Definition quote (s : string) : string :=
  String DQ (escape s ++ String DQ EmptyString).

Definition string_of_Z (z : Z) : string :=
  if (z <? 0)%Z then "-" ++ string_of_N (Z.to_N (- z)) else string_of_N (Z.to_N z).

(** [SerializeJSONProperty] with the gap ["  "]; [ind] is the current indent. *)
Fixpoint stringify_at (ind : string) (v : json) : string :=
  match v with
  | JNull => "null"
  | JBool true => "true"
  | JBool false => "false"
  | JNum z => string_of_Z z
  | JStr s => quote s
  | JArr [] => "[]"
  | JArr items =>
      "[" ++ LFs ++ ind ++ "  "
      ++ join ("," ++ LFs ++ ind ++ "  ") (map (stringify_at (ind ++ "  ")) items)
      ++ LFs ++ ind ++ "]"
  | JObj [] => "{}"
  | JObj members =>
      "{" ++ LFs ++ ind ++ "  "
      ++ join ("," ++ LFs ++ ind ++ "  ")
           (map (fun kv => quote (fst kv) ++ ": " ++ stringify_at (ind ++ "  ") (snd kv))
              members)
      ++ LFs ++ ind ++ "}"
  end.

(** [JSON.stringify(v, null, 2)] *)
Definition JSON_stringify (v : json) : string := stringify_at EmptyString v.

(** JSON white space: space, TAB, LF, CR. *)
Definition json_ws (c : ascii) : bool :=
  let n := nat_of_ascii c in
  (n =? 32)%nat || (n =? 9)%nat || (n =? 10)%nat || (n =? 13)%nat.

Fixpoint skip_ws (s : string) : string :=
  match s with
  | String c rest => if json_ws c then skip_ws rest else s
  | EmptyString => EmptyString
  end.

Fixpoint strip_prefix (p s : string) : option string :=
  match p, s with
  | EmptyString, _ => Some s
  | String c p', String c' s' => if Ascii.eqb c c' then strip_prefix p' s' else None
  | _, _ => None
  end.

Definition hex_val (c : ascii) : option nat :=
  let n := nat_of_ascii c in
  if (48 <=? n)%nat && (n <=? 57)%nat then Some (n - 48)%nat
  else if (97 <=? n)%nat && (n <=? 102)%nat then Some (n - 87)%nat
  else if (65 <=? n)%nat && (n <=? 70)%nat then Some (n - 55)%nat
  else None.

(** Single-character escapes of JSON strings. *)
Definition unescape (e : ascii) : option ascii :=
  if Ascii.eqb e DQ then Some DQ
  else if Ascii.eqb e BS then Some BS
  else if Ascii.eqb e "/" then Some "/"%char
  else if Ascii.eqb e "b" then Some (ascii_of_nat 8)
  else if Ascii.eqb e "f" then Some (ascii_of_nat 12)
  else if Ascii.eqb e "n" then Some (ascii_of_nat 10)
  else if Ascii.eqb e "r" then Some (ascii_of_nat 13)
  else if Ascii.eqb e "t" then Some (ascii_of_nat 9)
  else None.

(** The characters of a string literal after its opening quote, up to and
    without its closing quote; [\uXXXX] beyond the 8-bit range is outside
    the model. *)
Fixpoint parse_str_body (s : string) : option (string * string) :=
  match s with
  | EmptyString => None
  | String c r =>
      if Ascii.eqb c DQ then Some (EmptyString, r)
      else if Ascii.eqb c BS then
        match r with
        | String e r' =>
            match unescape e with
            | Some c' =>
                match parse_str_body r' with
                | Some (body, rest) => Some (String c' body, rest)
                | None => None
                end
            | None =>
                if Ascii.eqb e "u" then
                  match r' with
                  | String h1 (String h2 (String h3 (String h4 r''))) =>
                      match hex_val h1, hex_val h2, hex_val h3, hex_val h4 with
                      | Some a, Some b, Some c1, Some d =>
                          let code := (((a * 16 + b) * 16 + c1) * 16 + d)%nat in
                          if (code <? 256)%nat then
                            match parse_str_body r'' with
                            | Some (body, rest) => Some (String (ascii_of_nat code) body, rest)
                            | None => None
                            end
                          else None
                      | _, _, _, _ => None
                      end
                  | _ => None
                  end
                else None
            end
        | EmptyString => None
        end
      else if (nat_of_ascii c <? 32)%nat then None
      else
        match parse_str_body r with
        | Some (body, rest) => Some (String c body, rest)
        | None => None
        end
  end.

Definition digit_of (c : ascii) : option (uint -> uint) :=
  match nat_of_ascii c with
  | 48 => Some D0 | 49 => Some D1 | 50 => Some D2 | 51 => Some D3
  | 52 => Some D4 | 53 => Some D5 | 54 => Some D6 | 55 => Some D7
  | 56 => Some D8 | 57 => Some D9 | _ => None
  end.

Fixpoint take_digits (s : string) : uint * string :=
  match s with
  | EmptyString => (Nil, EmptyString)
  | String c r =>
      match digit_of c with
      | Some k => let (d, rest) := take_digits r in (k d, rest)
      | None => (Nil, s)
      end
  end.

(** The integer part of a number: a leading [0] stands alone. *)
Definition parse_int_part (s : string) : option (N * string) :=
  match s with
  | String "0" r => Some (0%N, r)
  | _ =>
      match take_digits s with
      | (Nil, _) => None
      | (d, r) => Some (N.of_uint d, r)
      end
  end.

Definition no_fraction (r : string) : bool :=
  match r with
  | String c _ => negb (Ascii.eqb c "." || Ascii.eqb c "e" || Ascii.eqb c "E")
  | EmptyString => true
  end.

Definition parse_number (s : string) : option (json * string) :=
  match s with
  | String "-" r =>
      match parse_int_part r with
      | Some (n, r') => if no_fraction r' then Some (JNum (- Z.of_N n), r') else None
      | None => None
      end
  | _ =>
      match parse_int_part s with
      | Some (n, r') => if no_fraction r' then Some (JNum (Z.of_N n), r') else None
      | None => None
      end
  end.

(** A repeated key keeps its first position and takes the last value. *)
Fixpoint obj_set (k : string) (v : json) (m : list (string * json)) : list (string * json) :=
  match m with
  | [] => [(k, v)]
  | (k', v') :: m' => if String.eqb k k' then (k, v) :: m' else (k', v') :: obj_set k v m'
  end.

Fixpoint parse_value (fuel : nat) (s : string) : option (json * string) :=
  match fuel with
  | O => None
  | S f =>
      match skip_ws s with
      | EmptyString => None
      | String c r as s' =>
          if Ascii.eqb c "[" then
            match skip_ws r with
            | String "]" r' => Some (JArr [], r')
            | _ => parse_elements f r []
            end
          else if Ascii.eqb c "{" then
            match skip_ws r with
            | String "}" r' => Some (JObj [], r')
            | _ => parse_members f r []
            end
          else if Ascii.eqb c DQ then
            match parse_str_body r with
            | Some (str, r') => Some (JStr str, r')
            | None => None
            end
          else if Ascii.eqb c "n" then option_map (fun r' => (JNull, r')) (strip_prefix "ull" r)
          else if Ascii.eqb c "t" then option_map (fun r' => (JBool true, r')) (strip_prefix "rue" r)
          else if Ascii.eqb c "f" then option_map (fun r' => (JBool false, r')) (strip_prefix "alse" r)
          else parse_number s'
      end
  end
with parse_elements (fuel : nat) (s : string) (acc : list json) : option (json * string) :=
  match fuel with
  | O => None
  | S f =>
      match parse_value f s with
      | Some (v, r) =>
          match skip_ws r with
          | String "," r' => parse_elements f r' (acc ++ [v])%list
          | String "]" r' => Some (JArr (acc ++ [v])%list, r')
          | _ => None
          end
      | None => None
      end
  end
with parse_members (fuel : nat) (s : string) (acc : list (string * json)) : option (json * string) :=
  match fuel with
  | O => None
  | S f =>
      match skip_ws s with
      | String c r =>
          if Ascii.eqb c DQ then
            match parse_str_body r with
            | Some (k, r1) =>
                match skip_ws r1 with
                | String ":" r2 =>
                    match parse_value f r2 with
                    | Some (v, r3) =>
                        match skip_ws r3 with
                        | String "," r4 => parse_members f r4 (obj_set k v acc)
                        | String "}" r4 => Some (JObj (obj_set k v acc), r4)
                        | _ => None
                        end
                    | None => None
                    end
                | _ => None
                end
            | None => None
            end
          else None
      | EmptyString => None
      end
  end.

(** [JSON.parse(s)].  [Some v] is the value [JSON.parse] returns.  [None]
    is a thrown [SyntaxError], or a well-formed text outside the model (a
    number with a fraction or an exponent, a [\uXXXX] escape from U+0100 up)
    that [JSON.parse] accepts: no theorem takes [None] as a syntax error. *)
Definition JSON_parse (s : string) : option json :=
  match parse_value (S (String.length s)) s with
  | Some (v, rest) =>
      match skip_ws rest with
      | EmptyString => Some v
      | _ => None
      end
  | None => None
  end.

Example JSON_parse_ex :
  JSON_parse (JSON_stringify (JArr [JObj [("date", JStr "2024-01-01"); ("n", JNum 12)]; JNum (-3)]))
  = Some (JArr [JObj [("date", JStr "2024-01-01"); ("n", JNum 12)]; JNum (-3)]).
Proof. vm_compute. reflexivity. Qed.

Example JSON_stringify_ex :
  JSON_stringify (JArr [JObj [("a", JNum 1)]]) =
  "[" ++ LFs ++ "  {" ++ LFs ++ "    " ++ quote "a" ++ ": 1" ++ LFs ++ "  }" ++ LFs ++ "]".
Proof. reflexivity. Qed.

(** ** Errors and the two formats *)

(** What a [throw] in [load.js] carries. *)
Inductive error :=
| HttpError (status : Z)            (** a rejected Octokit request *)
| SyntaxError                       (** [JSON.parse] on malformed text *)
| TypeError                         (** property of [null], call of a non-function *)
| UnsupportedFormat                 (** ['Unsupported format. Please choose ...'] *)
| GenerateError (inner : error)     (** ['Unable to generate file content: ...'] *)
| BranchCheckError (inner : error)  (** ['Error checking if branch exists: ...'] *)
| NonTermination.                   (** a [while] loop that never exits *)

Inductive result (A : Type) :=
| Ok (a : A)
| Err (e : error).
Arguments Ok {A} a.
Arguments Err {A} e.

(** The two values of [format] the code dispatches on, after
    [toLowerCase()]. *)
Inductive format := Json | Csv.

Definition classify (fmt : string) : option format :=
  if String.eqb fmt "json" then Some Json
  else if String.eqb fmt "csv" then Some Csv
  else None.

(** ** [generateFileContent] *)

Record repo_stats := mkStats {
  stargazerCount : N;
  commitCount : N;
  contributorsCount : N
}.

(** [{ count, uniques }] returned by [getYesterdayTraffic] / [getYesterdayClones]. *)
Record day_counts := mkCounts {
  count : N;
  uniques : N
}.

Definition make_entry (yesterdayDateString : string) (s : repo_stats)
    (yesterdayTraffic yesterdayClones : day_counts) : entry :=
  {| date := yesterdayDateString;
     stargazers := stargazerCount s;
     commits := commitCount s;
     contributors := contributorsCount s;
     traffic_views := count yesterdayTraffic;
     traffic_uniques := uniques yesterdayTraffic;
     clones_count := count yesterdayClones;
     clones_uniques := uniques yesterdayClones |}.

(** [newEntry] as the JavaScript object [JSON.stringify] serialises. *)
Definition entry_json (e : entry) : json :=
  JObj [("date", JStr (date e));
        ("stargazers", JNum (Z.of_N (stargazers e)));
        ("commits", JNum (Z.of_N (commits e)));
        ("contributors", JNum (Z.of_N (contributors e)));
        ("traffic_views", JNum (Z.of_N (traffic_views e)));
        ("traffic_uniques", JNum (Z.of_N (traffic_uniques e)));
        ("clones_count", JNum (Z.of_N (clones_count e)));
        ("clones_uniques", JNum (Z.of_N (clones_uniques e)))].

Fixpoint assoc (k : string) (m : list (string * json)) : option json :=
  match m with
  | [] => None
  | (k', v) :: m' => if String.eqb k k' then Some v else assoc k m'
  end.

(** [entry.date]: [null.date] throws, other non-objects give [undefined]. *)
Definition prop_date (v : json) : result (option json) :=
  match v with
  | JNull => Err TypeError
  | JObj members => Ok (assoc "date" members)
  | _ => Ok None
  end.

(** [existingData.findIndex((entry) => entry.date === newEntry.date)] *)
Fixpoint findIndex_date (d : string) (l : list json) : result (option nat) :=
  match l with
  | [] => Ok None
  | x :: xs =>
      match prop_date x with
      | Err e => Err e
      | Ok (Some (JStr d')) =>
          if String.eqb d' d then Ok (Some 0)
          else match findIndex_date d xs with
               | Ok i => Ok (option_map S i)
               | Err e => Err e
               end
      | Ok _ =>
          match findIndex_date d xs with
          | Ok i => Ok (option_map S i)
          | Err e => Err e
          end
      end
  end.

(** The JSON branch of [generateFileContent]: [existingData.findIndex] is
    not a function unless [existingData] is an array. *)
Definition generate_json (insightsFile : string) (newEntry : entry) : result string :=
  match JSON_parse insightsFile with
  | None => Err SyntaxError
  | Some (JArr existingData) =>
      match findIndex_date (date newEntry) existingData with
      | Err e => Err e
      | Ok (Some existingEntryIndex) =>
          Ok (JSON_stringify (JArr (set_nth existingEntryIndex (entry_json newEntry) existingData)))
      | Ok None => Ok (JSON_stringify (JArr (existingData ++ [entry_json newEntry])%list))
      end
  | Some _ => Err TypeError
  end.

(** [generateFileContent]; its [catch] re-throws with a prefixed message.
    (For a [format] other than the two the source leaves [fileContent]
    undefined; [run] never gets there, [getInsightsFile] throws first.) *)
Definition generateFileContent (insightsFile : string) (s : repo_stats)
    (yesterdayTraffic yesterdayClones : day_counts) (yesterdayDateString : string)
    (fmt : format) : result string :=
  let newEntry := make_entry yesterdayDateString s yesterdayTraffic yesterdayClones in
  match fmt with
  | Json =>
      match generate_json insightsFile newEntry with
      | Ok c => Ok c
      | Err e => Err (GenerateError e)
      end
  | Csv => Ok (generate_csv insightsFile newEntry)
  end.

(** The upsert of a record, as [generateFileContent] applies it. *)
Definition upsert (fmt : format) (insightsFile : string) (R : entry) : result string :=
  generateFileContent insightsFile
    (mkStats (stargazers R) (commits R) (contributors R))
    (mkCounts (traffic_views R) (traffic_uniques R))
    (mkCounts (clones_count R) (clones_uniques R)) (date R) fmt.

(** ** The datasets [generateFileContent] writes *)

(** A calendar date as [toISOString().split("T")[0]] prints it: [YYYY-MM-DD]. *)
Definition is_digit (c : ascii) : bool :=
  let n := nat_of_ascii c in (48 <=? n)%nat && (n <=? 57)%nat.

Definition valid_date (d : string) : bool :=
  match d with
  | String y1 (String y2 (String y3 (String y4 (String m0 (String m1 (String m2
      (String d0 (String d1 (String d2 EmptyString))))))))) =>
      is_digit y1 && is_digit y2 && is_digit y3 && is_digit y4 && Ascii.eqb m0 "-"
      && is_digit m1 && is_digit m2 && Ascii.eqb d0 "-" && is_digit d1 && is_digit d2
  | _ => false
  end.

Definition valid_entry (e : entry) : Prop := valid_date (date e) = true.

(** The file each format holds for a dataset, as [generateFileContent]
    writes it. *)
Definition encode (fmt : format) (D : list entry) : string :=
  match fmt with
  | Json => JSON_stringify (JArr (map entry_json D))
  | Csv => join LFs (csv_header_line :: map csv_line D)
  end.

(** Insert-or-replace by date on the records themselves. *)
Definition upsert_entries (D : list entry) (R : entry) : list entry :=
  match findIndex (fun e => String.eqb (date e) (date R)) D with
  | Some i => set_nth i R D
  | None => (D ++ [R])%list
  end.

Example upsert_json_ex :
  let e1 := mkEntry "2024-01-01" 10 3 2 5 4 1 1 in
  let e2 := mkEntry "2024-01-02" 12 3 2 5 4 1 1 in
  let e1' := mkEntry "2024-01-01" 15 3 2 5 4 1 1 in
  upsert Json (encode Json [e1]) e2 = Ok (encode Json [e1; e2])
  /\ upsert Json (encode Json [e1]) e1' = Ok (encode Json [e1']).
Proof. vm_compute. split; reflexivity. Qed.

(** ** The storage repository, the metrics source and the requests

    Octokit requests are modelled over a [world]: the git objects and refs
    of the storage repository, what the metrics endpoints report, the
    endpoints that reject every request (with the HTTP status they answer),
    and the list of requests sent so far.  File contents are kept decoded:
    [Base64.decode(fileData.content)] gives back the stored text. *)

Record git_commit := mkCommit {
  commit_tree : nat;
  commit_parents : list nat
}.

(** The answer of the GraphQL query of [getRepoStats]: [stargazerCount],
    [history.totalCount], and the [author.user] of each history node
    ([None] for a node with no linked user). *)
Record repository_info := mkRepositoryInfo {
  stargazer_total : N;
  history_total : N;
  history_users : list (option string)
}.

Inductive endpoint :=
| EGraphql | EGetViews | EGetClones
| EGetRef | ECreateRef | EGetContent
| EGetCommit | ECreateBlob | ECreateTree | ECreateCommit | EUpdateRef.

Scheme Equality for endpoint.

(** The requests, in the order the action sends them, and [core.setFailed]. *)
Inductive event :=
| Graphql
| GetViews
| GetClones
| GetRef (branch : string)
| CreateRef (branch : string) (target : nat)
| GetContent (path branch : string)
| GetCommit (commit : nat)
| CreateBlob (content : string)
| CreateTree (base : nat) (path : string) (blob : nat)
| CreateCommit (tree : nat) (parents : list nat)
| UpdateRef (branch : string) (target : nat)
| SetFailed (e : error).

Record world := mkWorld {
  refs : list (string * nat);               (** branch name, head commit *)
  git_commits : list (nat * git_commit);
  git_trees : list (nat * list (string * nat)); (** path, blob *)
  git_blobs : list (nat * string);
  next_id : nat;                            (** id of the next object created *)
  repository : repository_info;
  views : list (string * day_counts);       (** [viewsData.views]: timestamp, counts *)
  clones : list (string * day_counts);      (** [clonesData.clones] *)
  failing : list (endpoint * Z);
  trace : list event
}.

Fixpoint lookup {K V} (eqb : K -> K -> bool) (k : K) (l : list (K * V)) : option V :=
  match l with
  | [] => None
  | (k', v) :: l' => if eqb k k' then Some v else lookup eqb k l'
  end.

Fixpoint update {K V} (eqb : K -> K -> bool) (k : K) (v : V) (l : list (K * V)) : list (K * V) :=
  match l with
  | [] => []
  | (k', v') :: l' => if eqb k k' then (k', v) :: l' else (k', v') :: update eqb k v l'
  end.

Definition log (ev : event) (w : world) : world :=
  mkWorld (refs w) (git_commits w) (git_trees w) (git_blobs w) (next_id w) (repository w)
    (views w) (clones w) (failing w) (trace w ++ [ev]).

Definition set_refs (r : list (string * nat)) (w : world) : world :=
  mkWorld r (git_commits w) (git_trees w) (git_blobs w) (next_id w) (repository w)
    (views w) (clones w) (failing w) (trace w).

Definition add_commit (c : git_commit) (w : world) : world :=
  mkWorld (refs w) ((next_id w, c) :: git_commits w) (git_trees w) (git_blobs w) (S (next_id w))
    (repository w) (views w) (clones w) (failing w) (trace w).

Definition add_tree (t : list (string * nat)) (w : world) : world :=
  mkWorld (refs w) (git_commits w) ((next_id w, t) :: git_trees w) (git_blobs w) (S (next_id w))
    (repository w) (views w) (clones w) (failing w) (trace w).

Definition add_blob (b : string) (w : world) : world :=
  mkWorld (refs w) (git_commits w) (git_trees w) ((next_id w, b) :: git_blobs w) (S (next_id w))
    (repository w) (views w) (clones w) (failing w) (trace w).

(** A state and error monad over [world]: a thrown error keeps the
    requests already sent and their effects. *)
Definition M (A : Type) : Type := world -> result A * world.

Definition ret {A} (a : A) : M A := fun w => (Ok a, w).

Definition bind {A B} (m : M A) (k : A -> M B) : M B :=
  fun w => match m w with
           | (Ok a, w') => k a w'
           | (Err e, w') => (Err e, w')
           end.

Definition throw {A} (e : error) : M A := fun w => (Err e, w).

Definition lift {A} (r : result A) : M A := fun w => (r, w).

(** [try { m } catch (error) { h(error) }] *)
Definition try_catch {A} (m : M A) (h : error -> M A) : M A :=
  fun w => match m w with
           | (Ok a, w') => (Ok a, w')
           | (Err e, w') => h e w'
           end.

Notation "x <- m ;; k" := (bind m (fun x => k))
  (at level 61, m at next level, right associativity).
Notation "m ;; k" := (bind m (fun _ => k))
  (at level 61, right associativity).

(** One request: it is sent (and recorded) whatever its outcome; a failing
    endpoint rejects it with its status, otherwise the server answers. *)
Definition request {A} (ep : endpoint) (ev : event) (serve : M A) : M A :=
  fun w =>
    let w1 := log ev w in
    match lookup endpoint_beq ep (failing w) with
    | Some status => (Err (HttpError status), w1)
    | None => serve w1
    end.

Definition not_found {A} : M A := throw (HttpError 404).

(** [octokit.graphql(query)] *)
Definition graphql : M repository_info :=
  request EGraphql Graphql (fun w => (Ok (repository w), w)).

(** [rest.repos.getViews({per: "day"})] and [rest.repos.getClones] *)
Definition getViews : M (list (string * day_counts)) :=
  request EGetViews GetViews (fun w => (Ok (views w), w)).

Definition getClones : M (list (string * day_counts)) :=
  request EGetClones GetClones (fun w => (Ok (clones w), w)).

(** [rest.git.getRef({ref: `heads/${branch}`})], its [object.sha] *)
Definition getRef (branch : string) : M nat :=
  request EGetRef (GetRef branch)
    (fun w => match lookup String.eqb branch (refs w) with
              | Some c => (Ok c, w)
              | None => not_found w
              end).

(** [rest.git.createRef]: 422 when the reference already exists. *)
Definition createRef (branch : string) (target : nat) : M unit :=
  request ECreateRef (CreateRef branch target)
    (fun w => match lookup String.eqb branch (refs w) with
              | Some _ => throw (HttpError 422) w
              | None => (Ok tt, set_refs ((branch, target) :: refs w) w)
              end).

(** The text stored at [path] in the tree of the head commit of [branch]. *)
Definition file_at (w : world) (path branch : string) : option string :=
  match lookup String.eqb branch (refs w) with
  | None => None
  | Some c =>
      match lookup Nat.eqb c (git_commits w) with
      | None => None
      | Some cm =>
          match lookup Nat.eqb (commit_tree cm) (git_trees w) with
          | None => None
          | Some t =>
              match lookup String.eqb path t with
              | None => None
              | Some b => lookup Nat.eqb b (git_blobs w)
              end
          end
      end
  end.

(** [rest.repos.getContent({path, ref: branch})], decoded; 404 when there
    is no such file. *)
Definition getContent (path branch : string) : M string :=
  request EGetContent (GetContent path branch)
    (fun w => match file_at w path branch with
              | Some content => (Ok content, w)
              | None => not_found w
              end).

(** [rest.git.getCommit], its [tree.sha] *)
Definition getCommit (c : nat) : M nat :=
  request EGetCommit (GetCommit c)
    (fun w => match lookup Nat.eqb c (git_commits w) with
              | Some cm => (Ok (commit_tree cm), w)
              | None => not_found w
              end).

Definition createBlob (content : string) : M nat :=
  request ECreateBlob (CreateBlob content)
    (fun w => (Ok (next_id w), add_blob content w)).

(** [rest.git.createTree({base_tree, tree: [{path, sha}]})] *)
Definition createTree (base : nat) (path : string) (blob : nat) : M nat :=
  request ECreateTree (CreateTree base path blob)
    (fun w => match lookup Nat.eqb base (git_trees w) with
              | Some t =>
                  (Ok (next_id w),
                   add_tree ((path, blob) :: filter (fun pb => negb (String.eqb (fst pb) path)) t) w)
              | None => throw (HttpError 422) w
              end).

Definition createCommit (tree : nat) (parents : list nat) : M nat :=
  request ECreateCommit (CreateCommit tree parents)
    (fun w => (Ok (next_id w), add_commit (mkCommit tree parents) w)).

(** [rest.git.updateRef]: 422 for a reference that does not exist. *)
Definition updateRef (branch : string) (target : nat) : M unit :=
  request EUpdateRef (UpdateRef branch target)
    (fun w => match lookup String.eqb branch (refs w) with
              | Some _ => (Ok tt, set_refs (update String.eqb branch target (refs w)) w)
              | None => throw (HttpError 422) w
              end).

(** [core.setFailed(...)] *)
Definition setFailed (e : error) : M unit := fun w => (Ok tt, log (SetFailed e) w).

(** ** The functions of [load.js] over the world *)

(** [getRepoStats]: the totals of the repository, from one GraphQL query;
    [contributorsCount] is the size of the set of logins of the history
    nodes that have a user. *)
Definition stats_of_response (response : repository_info) : repo_stats :=
  let logins := flat_map (fun u => match u with Some l => [l] | None => [] end)
                   (history_users response) in
  mkStats (stargazer_total response) (history_total response)
    (N.of_nat (length (nodup string_dec logins))).

Definition getRepoStats : M repo_stats :=
  response <- graphql ;; ret (stats_of_response response).

(** [timestamp.split("T")[0]] *)
Definition day_of (timestamp : string) : string := hd EmptyString (split_on "T" timestamp).

(** [data.find((x) => x.timestamp.split("T")[0] === dateString) || { count: 0, uniques: 0 }] *)
Fixpoint find_day (dateString : string) (l : list (string * day_counts)) : day_counts :=
  match l with
  | [] => mkCounts 0 0
  | (timestamp, c) :: l' => if String.eqb (day_of timestamp) dateString then c else find_day dateString l'
  end.

Definition getYesterdayTraffic (dateString : string) : M day_counts :=
  viewsData <- getViews ;; ret (find_day dateString viewsData).

Definition getYesterdayClones (dateString : string) : M day_counts :=
  clonesData <- getClones ;; ret (find_day dateString clonesData).

(** [path.join(path.join(rootDir, owner, repo), `stats.${format}`)] for
    components with no separators to normalise. *)
Definition filePath (rootDir owner repo format : string) : string :=
  rootDir ++ "/" ++ owner ++ "/" ++ repo ++ "/stats." ++ format.

(** [JSON.parse(existingContent).length]: [None] is [undefined];
    [null.length] throws.  An object is taken to have no [length] member
    (JavaScript reads one if the text has it); no theorem depends on
    objects here. *)
Definition json_length (v : json) : result (option Z) :=
  match v with
  | JArr l => Ok (Some (Z.of_nat (length l)))
  | JStr s => Ok (Some (Z.of_nat (String.length s)))
  | JNull => Err TypeError
  | _ => Ok None
  end.

(** [getInsightsFile]: the dataset text and [insightsCount]. *)
Definition getInsightsFile (branch rootDir owner repo format : string) : M (string * option Z) :=
  let path := filePath rootDir owner repo format in
  try_catch
    (existingContent <- getContent path branch ;;
     if String.eqb format "json" then
       match JSON_parse existingContent with
       | None => throw SyntaxError
       | Some v => insightsCount <- lift (json_length v) ;; ret (existingContent, insightsCount)
       end
     else if String.eqb format "csv" then
       let csvLines := csv_lines existingContent in
       ret (join LFs csvLines, Some (Z.of_nat (length csvLines) - 1)%Z)
     else throw UnsupportedFormat)
    (fun _ =>
       if String.eqb format "json" then ret (JSON_stringify (JArr []), Some 0%Z)
       else if String.eqb format "csv" then ret (csv_header_line ++ LFs, Some 0%Z)
       else throw UnsupportedFormat).

(** [ensureBranchExists]: only a 404 on the branch is handled, by creating
    the branch at the head of [main]. *)
Definition ensureBranchExists (branch : string) : M unit :=
  try_catch (_ <- getRef branch ;; ret tt)
    (fun e =>
       match e with
       | HttpError status =>
           if Z.eqb status 404 then
             mainSha <- getRef "main" ;; createRef branch mainSha
           else throw (BranchCheckError e)
       | _ => throw (BranchCheckError e)
       end).

(** [commitFileToBranch] *)
Definition commitFileToBranch (branch path fileContent : string) : M unit :=
  commitSha <- getRef branch ;;
  treeSha <- getCommit commitSha ;;
  blobSha <- createBlob fileContent ;;
  newTreeSha <- createTree treeSha path blobSha ;;
  newCommitSha <- createCommit newTreeSha [commitSha] ;;
  updateRef branch newCommitSha.

(** The inputs of the action.  [in_day i] is the date of [today] moved
    back [i] days, as [today.toISOString().split("T")[0]] prints it, on the
    clock of the run. *)
Record inputs := mkInputs {
  in_owner : string;
  in_repository : string;
  in_directory : string;
  in_branch : string;
  in_format : string;
  in_day : nat -> string
}.

(** [core.getInput(name) || default] *)
Definition or_default (s d : string) : string := if String.eqb s EmptyString then d else s.

(** The [while (i != 1)] loop of [run], from a given [i]; [i] below 1
    never reaches 1. *)
Fixpoint backfill_loop (day : nat -> string) (s : repo_stats) (fmt : format)
    (i : nat) (insightsFile : string) : M string :=
  match i with
  | O => throw NonTermination
  | S O => ret insightsFile
  | S j =>
      let yesterdayDateString := day i in
      yesterdayTraffic <- getYesterdayTraffic yesterdayDateString ;;
      yesterdayClones <- getYesterdayClones yesterdayDateString ;;
      insightsFile' <- lift (generateFileContent insightsFile s yesterdayTraffic yesterdayClones
                               yesterdayDateString fmt) ;;
      backfill_loop day s fmt j insightsFile'
  end.

(** [if (insightsCount < 14) { let i = 14; while (i != 1) ... }];
    [undefined < 14] is false. *)
Definition lt14 (insightsCount : option Z) : bool :=
  match insightsCount with
  | Some k => (k <? 14)%Z
  | None => false
  end.

Definition backfill (day : nat -> string) (s : repo_stats) (fmt : format)
    (insightsCount : option Z) (insightsFile : string) : M string :=
  if lt14 insightsCount then backfill_loop day s fmt 14 insightsFile else ret insightsFile.

(** The body of [run]'s [try].  [generateFileContent] is reached only for
    a format [getInsightsFile] accepted; the [None] case below cannot
    happen (see [getInsightsFile_unsupported]). *)
Definition run_body (inp : inputs) : M unit :=
  let rootDir := or_default (in_directory inp) ".insights" in
  let branch := or_default (in_branch inp) "repository-insights" in
  let format := toLowerCase (or_default (in_format inp) "json") in
  s <- getRepoStats ;;
  ensureBranchExists branch ;;
  p <- getInsightsFile branch rootDir (in_owner inp) (in_repository inp) format ;;
  let (insightsFile, insightsCount) := p in
  match classify format with
  | None => throw UnsupportedFormat
  | Some fmt =>
      insightsFile' <- backfill (in_day inp) s fmt insightsCount insightsFile ;;
      let yesterdayDateString := in_day inp 1%nat in
      yesterdayTraffic <- getYesterdayTraffic yesterdayDateString ;;
      yesterdayClones <- getYesterdayClones yesterdayDateString ;;
      fileContent <- lift (generateFileContent insightsFile' s yesterdayTraffic yesterdayClones
                             yesterdayDateString fmt) ;;
      commitFileToBranch branch (filePath rootDir (in_owner inp) (in_repository inp) format)
        fileContent
  end.

(** [run]: every error ends in [core.setFailed]. *)
Definition run (inp : inputs) : M unit := try_catch (run_body inp) setFailed.

(** A storage repository whose [main] holds one empty commit. *)
Definition sample_world (rs : list (string * nat)) (fl : list (endpoint * Z)) : world :=
  mkWorld rs [(1%nat, mkCommit 0 [])] [(0%nat, [])] [] 2
    (mkRepositoryInfo 7 40 [Some "ann"; None; Some "bob"; Some "ann"])
    [("2024-03-09T00:00:00Z", mkCounts 5 2)] [("2024-03-10T00:00:00Z", mkCounts 1 1)]
    fl [].

Definition sample_inputs (fmt : string) : inputs :=
  mkInputs "o" "r" "" "" fmt (fun i => "2024-03-" ++ string_of_N (N.of_nat (24 - i))).

Example run_ex :
  let w := snd (run (sample_inputs "CSV") (sample_world [("main", 1%nat)] [])) in
  lookup String.eqb "repository-insights" (refs w) = Some 4%nat /\
  length (trace w) = 39%nat.
Proof. vm_compute. split; reflexivity. Qed.

(** ** Node's [path.join], used by [getInsightsFile] and [commitFileToBranch] *)

(** [p.charCodeAt(p.length - 1) === c]: the last character of [s] is [c]. *)
Fixpoint last_is (c : ascii) (s : string) : bool :=
  match s with
  | EmptyString => false
  | String c' EmptyString => Ascii.eqb c' c
  | String _ rest => last_is c rest
  end.

(** Node's [normalizeString(path, allowAboveRoot, '/')] (lib/path.js), segment by
    segment: empty and [.] segments are dropped; [..] removes the last kept
    segment, or, when there is none or it is [..] itself, is kept if
    [allowAboveRoot].  [res] holds the kept segments, the last one first. *)
Fixpoint normalize_segments (allowAboveRoot : bool) (res : list string) (segs : list string)
    : list string :=
  match segs with
  | [] => res
  | seg :: rest =>
      let res' :=
        if String.eqb seg "" || String.eqb seg "." then res
        else if String.eqb seg ".." then
          match res with
          | top :: res0 =>
              if String.eqb top ".." then (if allowAboveRoot then ".." :: res else res) else res0
          | [] => if allowAboveRoot then [".."] else []
          end
        else seg :: res in
      normalize_segments allowAboveRoot res' rest
  end.

(** Node's [path.posix.normalize(p)]. *)
Definition path_normalize (p : string) : string :=
  match p with
  | EmptyString => "."
  | String c _ =>
      let isAbsolute := Ascii.eqb c "/" in
      let trailingSeparator := last_is "/" p in
      let body := join "/" (List.rev (normalize_segments (negb isAbsolute) [] (split_on "/" p))) in
      if String.eqb body "" then
        (if isAbsolute then "/" else if trailingSeparator then "./" else ".")
      else
        let body' := if trailingSeparator then body ++ "/" else body in
        if isAbsolute then "/" ++ body' else body'
  end.

(** Node's [path.posix.join(...args)]: the non-empty arguments joined by
    [/] and normalised; [.] when every argument is empty. *)
Definition path_join (args : list string) : string :=
  match filter (fun arg => negb (String.eqb arg "")) args with
  | [] => "."
  | arg :: rest => path_normalize (fold_left (fun joined a => joined ++ "/" ++ a) rest arg)
  end.

(** ** The older [load.js] of [src/unnamed/part_000]

    Its [run] reads no storage repository, root directory or format
    argument: [getInsightsFile] and [commitFileToBranch] each build the file
    path from the inputs themselves. *)

(** [(core.getInput("format") || "json").toLowerCase()] *)
Definition old_format (inp : inputs) : string := toLowerCase (or_default (in_format inp) "json").

(** [getInsightsFile]: [path.join(path.join(rootDir, owner, repository), `stats.${format}`)]
    with [rootDir = core.getInput("directory")], which has no default. *)
Definition old_read_path (inp : inputs) : string :=
  path_join [path_join [in_directory inp; in_owner inp; in_repository inp]; "stats." ++ old_format inp].

(** [commitFileToBranch]: the same path with
    [rootDir = core.getInput("directory") || "./data"]. *)
Definition old_write_path (inp : inputs) : string :=
  path_join [path_join [or_default (in_directory inp) "./data"; in_owner inp; in_repository inp];
             "stats." ++ old_format inp].

(** [getInsightsFile] of the older version: the body of the current one at
    [old_read_path]. *)
Definition old_getInsightsFile (inp : inputs) (branch : string) : M (string * option Z) :=
  let format := old_format inp in
  let path := old_read_path inp in
  try_catch
    (existingContent <- getContent path branch ;;
     if String.eqb format "json" then
       match JSON_parse existingContent with
       | None => throw SyntaxError
       | Some v => insightsCount <- lift (json_length v) ;; ret (existingContent, insightsCount)
       end
     else if String.eqb format "csv" then
       let csvLines := csv_lines existingContent in
       ret (join LFs csvLines, Some (Z.of_nat (length csvLines) - 1)%Z)
     else throw UnsupportedFormat)
    (fun _ =>
       if String.eqb format "json" then ret (JSON_stringify (JArr []), Some 0%Z)
       else if String.eqb format "csv" then ret (csv_header_line ++ LFs, Some 0%Z)
       else throw UnsupportedFormat).

(** [commitFileToBranch] of the older version: the same requests as the
    current one, at [old_write_path]. *)
Definition old_commitFileToBranch (inp : inputs) (branch fileContent : string) : M unit :=
  commitFileToBranch branch (old_write_path inp) fileContent.

(** ** [setOutputs] *)

(** [setOutputs]: the [core.setOutput] calls, in order. *)
Definition setOutputs (s : repo_stats) (yesterdayTraffic yesterdayClones : day_counts) : list (string * N) :=
  [("stargazers", stargazerCount s); ("commits", commitCount s);
   ("contributors", contributorsCount s); ("traffic_views", count yesterdayTraffic);
   ("traffic_uniques", uniques yesterdayTraffic); ("clones_count", count yesterdayClones);
   ("clones_uniques", uniques yesterdayClones)].

(** * Proofs *)

(** ** Facts about strings *)

Fixpoint all_chars (p : ascii -> bool) (s : string) : bool :=
  match s with
  | EmptyString => true
  | String c rest => p c && all_chars p rest
  end.

Definition no_lf (s : string) : bool := all_chars (fun c => negb (Ascii.eqb c LF)) s.

Lemma all_chars_app p a b : all_chars p (a ++ b) = all_chars p a && all_chars p b.
Proof. induction a as [|c a IH]; simpl; [reflexivity|]. rewrite IH. apply andb_assoc. Qed.

Lemma all_chars_impl (p q : ascii -> bool) s :
  (forall c, p c = true -> q c = true) -> all_chars p s = true -> all_chars q s = true.
Proof.
  intros Hpq. induction s as [|c s IH]; simpl; [reflexivity|].
  intros H. apply andb_prop in H as [H1 H2]. rewrite (Hpq c H1). simpl. auto.
Qed.

Lemma string_app_assoc a b c : a ++ (b ++ c) = (a ++ b) ++ c.
Proof. induction a as [|x a IH]; simpl; congruence. Qed.

Lemma string_app_nil a : a ++ EmptyString = a.
Proof. induction a as [|x a IH]; simpl; congruence. Qed.

Lemma string_length_app a b : String.length (a ++ b) = String.length a + String.length b.
Proof. induction a as [|x a IH]; simpl; congruence. Qed.

Lemma split_no_sep a : no_lf a = true -> split_on LF a = [a].
Proof.
  unfold no_lf. induction a as [|c a IH]; simpl; [reflexivity|].
  intros H. apply andb_prop in H as [H1 H2]. apply negb_true_iff in H1.
  rewrite H1, IH by exact H2. reflexivity.
Qed.

Lemma split_app_sep a s : no_lf a = true -> split_on LF (a ++ String LF s) = a :: split_on LF s.
Proof.
  unfold no_lf. induction a as [|c a IH]; simpl; intros H.
  - reflexivity.
  - apply andb_prop in H as [H1 H2]. apply negb_true_iff in H1.
    rewrite H1, IH by exact H2. reflexivity.
Qed.

Lemma split_join L :
  L <> [] -> Forall (fun l => no_lf l = true) L -> split_on LF (join LFs L) = L.
Proof.
  induction L as [|x L IH]; intros Hne HL; [congruence|].
  inversion HL as [|? ? Hx HL']; subst.
  destruct L as [|y L].
  - apply split_no_sep, Hx.
  - change (join LFs (x :: y :: L)) with (x ++ String LF (join LFs (y :: L))).
    rewrite split_app_sep by exact Hx. rewrite IH; [reflexivity|discriminate|exact HL'].
Qed.

Lemma filter_all {A} (p : A -> bool) l : Forall (fun x => p x = true) l -> filter p l = l.
Proof. induction 1; simpl; [reflexivity|]. rewrite H. congruence. Qed.

Lemma csv_lines_join L :
  L <> [] -> Forall (fun l => no_lf l = true /\ is_blank l = false) L ->
  csv_lines (join LFs L) = L.
Proof.
  intros Hne HL. unfold csv_lines. rewrite split_join; [| exact Hne |].
  - apply filter_all. eapply Forall_impl; [|exact HL]. intros l [_ H]. rewrite H. reflexivity.
  - eapply Forall_impl; [|exact HL]. intros l [H _]. exact H.
Qed.

(** ** Facts about lists: [findIndex], [set_nth] *)

Lemma findIndex_some {A} (p : A -> bool) l i :
  findIndex p l = Some i ->
  (exists x, nth_error l i = Some x /\ p x = true) /\
  (forall j y, (j < i)%nat -> nth_error l j = Some y -> p y = false).
Proof.
  revert i. induction l as [|x l IH]; simpl; intros i H; [discriminate|].
  destruct (p x) eqn:Hx.
  - injection H as <-. split; [exists x; auto|]. intros j y Hj. lia.
  - destruct (findIndex p l) as [k|] eqn:Hk; simpl in H; [|discriminate].
    injection H as <-. destruct (IH k eq_refl) as [[y [Hy Hpy]] Hbefore].
    split; [exists y; auto|].
    intros [|j] z Hj Hz; simpl in Hz; [congruence|]. apply (Hbefore j); [lia|exact Hz].
Qed.

Lemma findIndex_none {A} (p : A -> bool) l :
  findIndex p l = None -> forall x, In x l -> p x = false.
Proof.
  induction l as [|y l IH]; simpl; intros H x Hx; [contradiction|].
  destruct (p y) eqn:Hy; [discriminate|].
  destruct (findIndex p l) eqn:Hl; [discriminate|].
  destruct Hx as [<-|Hx]; auto.
Qed.

Lemma findIndex_set_nth {A} (p : A -> bool) l i x :
  findIndex p l = Some i -> p x = true -> findIndex p (set_nth i x l) = Some i.
Proof.
  revert i. induction l as [|y l IH]; simpl; intros i H Hx; [discriminate|].
  destruct (p y) eqn:Hy.
  - injection H as <-. simpl. rewrite Hx. reflexivity.
  - destruct (findIndex p l) as [k|] eqn:Hk; simpl in H; [|discriminate].
    injection H as <-. simpl. rewrite Hy, (IH k eq_refl Hx). reflexivity.
Qed.

Lemma set_nth_set_nth {A} i (x y : A) l : set_nth i x (set_nth i y l) = set_nth i x l.
Proof. revert i. induction l as [|z l IH]; intros [|i]; simpl; congruence. Qed.

Lemma findIndex_app_last {A} (p : A -> bool) l x :
  findIndex p l = None -> p x = true -> findIndex p (l ++ [x])%list = Some (length l).
Proof.
  induction l as [|y l IH]; simpl; intros H Hx.
  - rewrite Hx. reflexivity.
  - destruct (p y); [discriminate|]. destruct (findIndex p l); [discriminate|].
    rewrite IH by auto. reflexivity.
Qed.

Lemma set_nth_app_last {A} (l : list A) x y : set_nth (length l) x (l ++ [y])%list = (l ++ [x])%list.
Proof. induction l as [|z l IH]; simpl; congruence. Qed.

Lemma map_set_nth {A B} (f : A -> B) i x l : map f (set_nth i x l) = set_nth i (f x) (map f l).
Proof. revert i. induction l as [|z l IH]; intros [|i]; simpl; congruence. Qed.

Lemma findIndex_map {A B} (f : A -> B) (p : B -> bool) l :
  findIndex p (map f l) = findIndex (fun x => p (f x)) l.
Proof. induction l as [|x l IH]; simpl; [reflexivity|]. rewrite IH. reflexivity. Qed.

Lemma Forall_set_nth {A} (P : A -> Prop) i x l :
  Forall P l -> P x -> Forall P (set_nth i x l).
Proof.
  revert i. induction l as [|y l IH]; intros [|i] Hl Hx; simpl; auto;
    inversion Hl; subst; constructor; auto.
Qed.

(** ** Insert-or-replace on records *)

Lemma upsert_entries_idem D R : upsert_entries (upsert_entries D R) R = upsert_entries D R.
Proof.
  unfold upsert_entries.
  destruct (findIndex (fun e => String.eqb (date e) (date R)) D) as [i|] eqn:Hi.
  - rewrite (findIndex_set_nth _ _ _ _ Hi) by apply String.eqb_refl.
    apply set_nth_set_nth.
  - rewrite (findIndex_app_last _ _ _ Hi) by apply String.eqb_refl.
    apply set_nth_app_last.
Qed.

Lemma map_date_set_nth D R i :
  findIndex (fun e => String.eqb (date e) (date R)) D = Some i ->
  map date (set_nth i R D) = map date D.
Proof.
  revert i. induction D as [|x D IH]; simpl; intros i H; [discriminate|].
  destruct (String.eqb (date x) (date R)) eqn:Hx.
  - injection H as <-. apply String.eqb_eq in Hx. simpl. congruence.
  - destruct (findIndex _ D) as [k|] eqn:Hk; simpl in H; [|discriminate].
    injection H as <-. simpl. rewrite (IH k eq_refl). reflexivity.
Qed.

Lemma upsert_entries_nodup D R : NoDup (map date D) -> NoDup (map date (upsert_entries D R)).
Proof.
  intros Hnd. unfold upsert_entries.
  destruct (findIndex (fun e => String.eqb (date e) (date R)) D) as [i|] eqn:Hi.
  - rewrite (map_date_set_nth _ _ _ Hi). exact Hnd.
  - rewrite map_app. simpl. apply NoDup_app; [exact Hnd | constructor; [intros []|constructor] |].
    intros d Hd [<-|[]]. apply in_map_iff in Hd as [e [He Hin]].
    pose proof (findIndex_none _ _ Hi e Hin) as Hf. cbv beta in Hf.
    rewrite He, String.eqb_refl in Hf. discriminate.
Qed.

Lemma upsert_entries_valid D R :
  Forall valid_entry D -> valid_entry R -> Forall valid_entry (upsert_entries D R).
Proof.
  intros HD HR. unfold upsert_entries.
  destruct (findIndex _ D); [apply Forall_set_nth; auto|].
  apply Forall_app; auto.
Qed.

(** ** The CSV branch on encoded datasets *)

Lemma valid_date_length d : valid_date d = true -> String.length d = 10.
Proof.
  intros H. do 10 (destruct d as [|? d]; [discriminate H|]).
  destruct d; [reflexivity | discriminate H].
Qed.

Lemma valid_date_chars d :
  valid_date d = true -> all_chars (fun c => is_digit c || Ascii.eqb c "-") d = true.
Proof.
  intros H. do 10 (destruct d as [|? d]; [discriminate H|]).
  destruct d; [|discriminate H]. cbv [valid_date] in H. cbn [all_chars].
  repeat match goal with Hc : _ && _ = true |- _ => apply andb_prop in Hc as [? ?] end.
  repeat match goal with Hc : _ = true |- _ => rewrite Hc; clear Hc end.
  rewrite !orb_true_r. reflexivity.
Qed.

Lemma valid_date_head d : valid_date d = true -> exists c r, d = String c r /\ is_digit c = true.
Proof.
  intros H. destruct d as [|c r]; [discriminate H|]. exists c, r. split; [reflexivity|].
  do 9 (destruct r as [|? r]; [discriminate H|]). destruct r; [|discriminate H].
  cbv [valid_date] in H.
  repeat match goal with Hc : _ && _ = true |- _ => apply andb_prop in Hc as [? ?] end.
  assumption.
Qed.

Lemma string_of_uint_digits d : all_chars is_digit (string_of_uint d) = true.
Proof. induction d; simpl; auto. Qed.

Lemma startsWith_app_same_length p q r :
  String.length p = String.length q -> startsWith p (q ++ r) = String.eqb p q.
Proof.
  revert q. induction p as [|c p IH]; intros [|c' q] Hl; simpl in *; try discriminate; auto.
  rewrite IH by congruence. destruct (Ascii.eqb c c'); reflexivity.
Qed.

Lemma csv_line_eq e :
  csv_line e = date e ++ String "," (string_of_N (stargazers e) ++ "," ++ string_of_N (commits e)
    ++ "," ++ string_of_N (contributors e) ++ "," ++ string_of_N (traffic_views e)
    ++ "," ++ string_of_N (traffic_uniques e) ++ "," ++ string_of_N (clones_count e)
    ++ "," ++ string_of_N (clones_uniques e)).
Proof. reflexivity. Qed.

Definition csv_char (c : ascii) : bool := is_digit c || Ascii.eqb c "-" || Ascii.eqb c ",".

Lemma csv_char_not_lf c : csv_char c = true -> negb (Ascii.eqb c LF) = true.
Proof. intros H. destruct (Ascii.eqb_spec c LF); [subst; discriminate H | reflexivity]. Qed.

Lemma csv_line_ok e : valid_entry e -> no_lf (csv_line e) = true /\ is_blank (csv_line e) = false.
Proof.
  intros He. split.
  - unfold no_lf. apply (all_chars_impl csv_char); [apply csv_char_not_lf|].
    pose proof (valid_date_chars _ He) as Hd.
    apply (all_chars_impl _ csv_char) in Hd.
    2:{ intros c Hc. unfold csv_char. rewrite Hc. reflexivity. }
    assert (Hn : forall n, all_chars csv_char (string_of_N n) = true).
    { intros n. apply (all_chars_impl is_digit); [|apply string_of_uint_digits].
      intros c Hc. unfold csv_char. rewrite Hc. reflexivity. }
    rewrite csv_line_eq.
    repeat progress (rewrite ?all_chars_app; cbn [all_chars]).
    rewrite Hd, !Hn. reflexivity.
  - destruct (valid_date_head _ He) as [c [r [Hdr Hc]]].
    rewrite csv_line_eq, Hdr. simpl.
    destruct (is_ws c) eqn:Hw; [|reflexivity].
    exfalso. destruct c as [[] [] [] [] [] [] [] []]; discriminate.
Qed.

Lemma csv_header_ok : no_lf csv_header_line = true /\ is_blank csv_header_line = false.
Proof. split; reflexivity. Qed.

Lemma csv_findIndex D R :
  Forall valid_entry D -> valid_entry R ->
  findIndex (fun line => startsWith (date R) line) (csv_header_line :: map csv_line D)
  = option_map S (findIndex (fun e => String.eqb (date e) (date R)) D).
Proof.
  intros HD HR. simpl.
  replace (startsWith (date R) csv_header_line) with false.
  2:{ destruct (valid_date_head _ HR) as [c [r [Hdr Hc]]]. rewrite Hdr. simpl.
      destruct (Ascii.eqb_spec c "d"); [subst; discriminate Hc | reflexivity]. }
  f_equal. rewrite findIndex_map. induction HD as [|e D He HD IH]; simpl; [reflexivity|].
  rewrite csv_line_eq, startsWith_app_same_length.
  2:{ rewrite (valid_date_length _ HR), (valid_date_length _ He). reflexivity. }
  rewrite String.eqb_sym. rewrite IH. reflexivity.
Qed.

Lemma generate_csv_encode D R :
  Forall valid_entry D -> valid_entry R ->
  generate_csv (encode Csv D) R = encode Csv (upsert_entries D R).
Proof.
  intros HD HR. unfold generate_csv, encode.
  rewrite csv_lines_join.
  2: discriminate.
  2:{ constructor; [exact csv_header_ok|]. apply Forall_map.
      eapply Forall_impl; [|exact HD]. intros e He. apply csv_line_ok, He. }
  rewrite csv_findIndex by assumption. unfold upsert_entries.
  destruct (findIndex _ D) as [i|]; simpl.
  - rewrite map_set_nth. reflexivity.
  - rewrite map_app. reflexivity.
Qed.

(** ** [JSON.parse] after [JSON.stringify] on datasets *)

(** Characters [QuoteJSONString] leaves as they are. *)
Definition plain_char (c : ascii) : bool :=
  negb (Ascii.eqb c DQ) && negb (Ascii.eqb c BS) && (32 <=? nat_of_ascii c)%nat.

Definition plain (s : string) : bool := all_chars plain_char s.

Lemma escape_plain s : plain s = true -> escape s = s.
Proof.
  unfold plain. induction s as [|c s IH]; simpl; [reflexivity|]. intros H.
  apply andb_prop in H as [Hc Hs]. rewrite (IH Hs).
  unfold plain_char in Hc. apply andb_prop in Hc as [Hc H32]. apply andb_prop in Hc as [Hdq Hbs].
  apply negb_true_iff in Hdq, Hbs. apply Nat.leb_le in H32.
  unfold escape_char. rewrite Hdq, Hbs.
  replace (nat_of_ascii c =? 8)%nat with false by (symmetry; apply Nat.eqb_neq; lia).
  replace (nat_of_ascii c =? 9)%nat with false by (symmetry; apply Nat.eqb_neq; lia).
  replace (nat_of_ascii c =? 10)%nat with false by (symmetry; apply Nat.eqb_neq; lia).
  replace (nat_of_ascii c =? 12)%nat with false by (symmetry; apply Nat.eqb_neq; lia).
  replace (nat_of_ascii c =? 13)%nat with false by (symmetry; apply Nat.eqb_neq; lia).
  replace (nat_of_ascii c <? 32)%nat with false by (symmetry; apply Nat.ltb_ge; lia).
  reflexivity.
Qed.

Lemma parse_str_body_plain s r :
  plain s = true -> parse_str_body (s ++ String DQ r) = Some (s, r).
Proof.
  unfold plain. induction s as [|c s IH]; simpl; intros H; [reflexivity|].
  apply andb_prop in H as [Hc Hs].
  unfold plain_char in Hc. apply andb_prop in Hc as [Hc H32]. apply andb_prop in Hc as [Hdq Hbs].
  apply negb_true_iff in Hdq, Hbs. rewrite Hdq, Hbs.
  replace (nat_of_ascii c <? 32)%nat with false by (symmetry; apply Nat.ltb_ge, Nat.leb_le, H32).
  rewrite (IH Hs). reflexivity.
Qed.

Lemma valid_date_plain d : valid_date d = true -> plain d = true.
Proof.
  intros H. apply valid_date_chars in H. unfold plain.
  refine (all_chars_impl _ _ _ _ H). intros c Hc.
  apply orb_prop in Hc as [Hc|Hc].
  - unfold is_digit in Hc. apply andb_prop in Hc as [H1 H2]. apply Nat.leb_le in H1, H2.
    unfold plain_char. destruct (Ascii.eqb_spec c DQ); [subst; cbv in H1; lia|].
    destruct (Ascii.eqb_spec c BS); [subst; cbv in H2; lia|].
    apply andb_true_intro; split; [reflexivity|]. apply Nat.leb_le. lia.
  - apply Ascii.eqb_eq in Hc. subst. reflexivity.
Qed.

Lemma skip_ws_cons c r : json_ws c = false -> skip_ws (String c r) = String c r.
Proof. intros H. simpl. rewrite H. reflexivity. Qed.

Lemma skip_ws_app w s : all_chars json_ws w = true -> skip_ws (w ++ s) = skip_ws s.
Proof.
  induction w as [|c w IH]; simpl; intros H; [reflexivity|].
  apply andb_prop in H as [Hc Hw]. rewrite Hc. apply IH, Hw.
Qed.

Lemma json_ws_digit c : is_digit c = true -> json_ws c = false.
Proof.
  intros H. unfold is_digit in H. apply andb_prop in H as [H1 H2]. apply Nat.leb_le in H1.
  unfold json_ws. repeat (apply orb_false_intro); apply Nat.eqb_neq; lia.
Qed.

Lemma digit_neq c c' : is_digit c = true -> is_digit c' = false -> Ascii.eqb c c' = false.
Proof. intros H H'. destruct (Ascii.eqb_spec c c'); [subst; congruence | reflexivity]. Qed.

(** *** Numbers *)

Lemma digit_of_none c : is_digit c = false -> digit_of c = None.
Proof.
  intros H. destruct c as [[] [] [] [] [] [] [] []]; solve [reflexivity | discriminate H].
Qed.

(** The end of a number in the text: not a digit, not a fraction or
    exponent. *)
Definition num_end (r : string) : bool :=
  no_fraction r && match r with String c _ => negb (is_digit c) | EmptyString => true end.

Lemma take_digits_app d r :
  num_end r = true -> take_digits (string_of_uint d ++ r) = (d, r).
Proof.
  intros Hr. induction d; simpl; try (rewrite IHd; reflexivity).
  destruct r as [|c r]; [reflexivity|]. simpl.
  unfold num_end in Hr. apply andb_prop in Hr as [_ Hr]. apply negb_true_iff in Hr.
  rewrite (digit_of_none _ Hr). reflexivity.
Qed.

Lemma to_uint_norm n : N.to_uint n = unorm (N.to_uint n).
Proof.
  rewrite <- DecimalN.Unsigned.to_of, DecimalN.Unsigned.of_to. reflexivity.
Qed.

Lemma to_uint_D0 n u : N.to_uint n = D0 u -> u = Nil.
Proof.
  intros H. pose proof (to_uint_norm n) as Hn. rewrite H in Hn.
  unfold unorm in Hn. simpl nzhead in Hn.
  pose proof (DecimalFacts.nb_digits_nzhead u) as Hle.
  destruct (nzhead u) as [|v|v|v|v|v|v|v|v|v|v]; try discriminate Hn.
  - injection Hn as Hn. exact Hn.
  - injection Hn as <-. simpl in Hle. lia.
Qed.

Lemma to_uint_not_nil n : N.to_uint n <> Nil.
Proof.
  intros H. pose proof (DecimalN.Unsigned.of_to n) as Hn. rewrite H in Hn.
  simpl in Hn. subst. discriminate H.
Qed.

Lemma string_of_N_head n : exists c r, string_of_N n = String c r /\ is_digit c = true.
Proof.
  unfold string_of_N. pose proof (to_uint_not_nil n).
  destruct (N.to_uint n); [congruence| | | | | | | | | |]; eexists _, _; split; reflexivity.
Qed.

Lemma parse_number_N n r :
  num_end r = true -> parse_number (string_of_N n ++ r) = Some (JNum (Z.of_N n), r).
Proof.
  intros Hr. pose proof (DecimalN.Unsigned.of_to n) as Hof. unfold string_of_N.
  assert (Hfr : no_fraction r = true) by (unfold num_end in Hr; apply andb_prop in Hr; tauto).
  pose proof (to_uint_D0 n) as H0. pose proof (to_uint_not_nil n) as Hnil.
  destruct (N.to_uint n) as [|u|u|u|u|u|u|u|u|u|u] eqn:Hu; [congruence| | | | | | | | | |].
  { specialize (H0 u eq_refl); subst u; simpl in Hof; subst n; simpl; rewrite Hfr; reflexivity. }
  all: cbn [string_of_uint append parse_number parse_int_part].
  all: match goal with
       | Hu : N.to_uint _ = ?d |- context [take_digits (String ?c (string_of_uint ?v ++ ?t))] =>
           change (String c (string_of_uint v ++ t)) with (string_of_uint d ++ t)
       end.
  all: rewrite take_digits_app by exact Hr; cbv beta iota zeta; rewrite Hfr, Hof; reflexivity.
Qed.

Lemma parse_value_str f w ind s tail :
  all_chars json_ws w = true -> plain s = true ->
  parse_value (S f) (w ++ stringify_at ind (JStr s) ++ tail) = Some (JStr s, tail).
Proof.
  intros Hw Hs. cbn [stringify_at]. unfold quote. rewrite escape_plain by exact Hs.
  cbn [parse_value]. rewrite skip_ws_app by exact Hw. cbn [append].
  rewrite <- string_app_assoc. cbn [append].
  rewrite skip_ws_cons by reflexivity. cbv [DQ Ascii.eqb]. cbn -[parse_str_body].
  pose proof (parse_str_body_plain s tail Hs) as Hp. cbv [DQ] in Hp. rewrite Hp. reflexivity.
Qed.

Lemma parse_value_num f w ind n tail :
  all_chars json_ws w = true -> num_end tail = true ->
  parse_value (S f) (w ++ stringify_at ind (JNum (Z.of_N n)) ++ tail) = Some (JNum (Z.of_N n), tail).
Proof.
  intros Hw Ht. cbn [stringify_at]. unfold string_of_Z.
  replace (Z.of_N n <? 0)%Z with false by (symmetry; apply Z.ltb_ge; lia).
  rewrite N2Z.id.
  cbn [parse_value]. rewrite skip_ws_app by exact Hw.
  destruct (string_of_N_head n) as [c [r [Hcr Hc]]].
  rewrite <- (parse_number_N n tail Ht). rewrite Hcr. cbn [append].
  rewrite skip_ws_cons by (apply json_ws_digit, Hc).
  rewrite !digit_neq by (exact Hc || reflexivity).
  reflexivity.
Qed.


Definition simple_value (v : json) : Prop :=
  (exists s, v = JStr s /\ plain s = true) \/ (exists n, v = JNum (Z.of_N n)).

Lemma parse_value_simple f w ind v tail :
  all_chars json_ws w = true -> simple_value v -> num_end tail = true ->
  parse_value (S f) (w ++ stringify_at ind v ++ tail) = Some (v, tail).
Proof.
  intros Hw [[s [-> Hs]] | [n ->]] Ht.
  - apply parse_value_str; assumption.
  - apply parse_value_num; assumption.
Qed.

Lemma num_end_ws w c r :
  all_chars json_ws w = true -> num_end (String c r) = true -> num_end (w ++ String c r) = true.
Proof.
  destruct w as [|c' w]; simpl; intros Hw Hc; [exact Hc|].
  apply andb_prop in Hw as [Hc' _].
  unfold num_end, no_fraction. destruct c' as [[] [] [] [] [] [] [] []]; try discriminate Hc'; reflexivity.
Qed.

Lemma obj_set_new k v acc : ~ In k (map fst acc) -> obj_set k v acc = (acc ++ [(k, v)])%list.
Proof.
  induction acc as [|[k' v'] acc IH]; simpl; intros Hk; [reflexivity|].
  destruct (String.eqb_spec k k'); [subst; tauto|]. rewrite IH by tauto. reflexivity.
Qed.

Definition member_str (ind : string) (kv : string * json) : string :=
  quote (fst kv) ++ ": " ++ stringify_at ind (snd kv).

Lemma parse_member_step f w ind k v tail acc :
  all_chars json_ws w = true -> plain k = true -> simple_value v -> num_end tail = true ->
  parse_members (S (S f)) (w ++ member_str ind (k, v) ++ tail) acc =
  match skip_ws tail with
  | String "," r4 => parse_members (S f) r4 (obj_set k v acc)
  | String "}" r4 => Some (JObj (obj_set k v acc), r4)
  | _ => None
  end.
Proof.
  intros Hw Hk Hv Ht. unfold member_str, quote. cbn [fst snd].
  rewrite escape_plain by exact Hk. cbn [append]. rewrite <- !string_app_assoc. cbn [append].
  remember (S f) as f' eqn:Hf'.
  cbn [parse_members]. rewrite skip_ws_app by exact Hw.
  rewrite skip_ws_cons by reflexivity. cbv [DQ Ascii.eqb].
  cbn -[parse_str_body parse_value skip_ws parse_members].
  pose proof (parse_str_body_plain k (String ":" (String " " (stringify_at ind v ++ tail))) Hk) as Hp.
  cbv [DQ] in Hp. rewrite Hp.
  rewrite skip_ws_cons by reflexivity. cbn -[parse_value skip_ws parse_members].
  change (String " " (stringify_at ind v ++ tail)) with (" " ++ stringify_at ind v ++ tail).
  rewrite Hf', parse_value_simple by (reflexivity || assumption).
  reflexivity.
Qed.

Definition member_ok (kv : string * json) : Prop := plain (fst kv) = true /\ simple_value (snd kv).

Lemma parse_members_ok ms : forall acc f w w' w'' ind rest,
  ms <> [] -> Forall member_ok ms ->
  NoDup (map fst acc ++ map fst ms) ->
  all_chars json_ws w = true -> all_chars json_ws w' = true -> all_chars json_ws w'' = true ->
  (length ms < f)%nat ->
  parse_members f (w ++ join ("," ++ w') (map (member_str ind) ms) ++ w'' ++ "}" ++ rest) acc
  = Some (JObj (acc ++ ms), rest).
Proof.
  induction ms as [|[k v] ms IH]; intros acc f w w' w'' ind rest Hne Hok Hnd Hw Hw' Hw'' Hf;
    [congruence|].
  inversion Hok as [|? ? [Hk Hv] Hok']; subst. cbn [fst snd] in Hk, Hv.
  destruct f as [|[|f]]; simpl in Hf; [lia|lia|].
  assert (Hnew : ~ In k (map fst acc)).
  { intros Hin. rewrite map_cons in Hnd. apply NoDup_remove_2 in Hnd. apply Hnd.
    apply in_or_app. left. exact Hin. }
  destruct ms as [|kv' ms].
  - cbn [map join].
    rewrite parse_member_step; [| assumption .. | apply num_end_ws; [exact Hw'' | reflexivity]].
    rewrite skip_ws_app by exact Hw''. cbn. rewrite obj_set_new by exact Hnew. reflexivity.
  - change (join ("," ++ w') (map (member_str ind) ((k, v) :: kv' :: ms)))
      with (member_str ind (k, v) ++ ("," ++ w') ++ join ("," ++ w') (map (member_str ind) (kv' :: ms))).
    rewrite <- (string_app_assoc (member_str ind (k, v))).
    rewrite parse_member_step; [| assumption .. | reflexivity].
    cbn [append]. rewrite skip_ws_cons by reflexivity.
    cbv iota. rewrite <- string_app_assoc. rewrite obj_set_new by exact Hnew.
    change (join (String "," w')) with (join ("," ++ w')).
    change (String "}" rest) with ("}" ++ rest).
    rewrite IH; [rewrite <- app_assoc; reflexivity | discriminate | exact Hok' | | assumption .. | ].
    + rewrite map_app, <- app_assoc. exact Hnd.
    + simpl in Hf |- *. lia.
Qed.

Lemma skip_ws_lf s : skip_ws (String LF s) = skip_ws s.
Proof. reflexivity. Qed.

Lemma skip_ws_sp s : skip_ws (String " " s) = skip_ws s.
Proof. reflexivity. Qed.

Lemma join_members_head sep ind m ms :
  exists x, join sep (map (member_str ind) (m :: ms)) = String DQ x.
Proof. destruct ms; simpl; eexists; reflexivity. Qed.

Lemma ws_indent ind : all_chars json_ws ind = true -> all_chars json_ws (LFs ++ ind ++ "  ") = true.
Proof. intros H. rewrite !all_chars_app, H. reflexivity. Qed.

Lemma parse_value_obj f w ind ms tail :
  ms <> [] -> Forall member_ok ms -> NoDup (map fst ms) ->
  all_chars json_ws w = true -> all_chars json_ws ind = true -> (length ms < f)%nat ->
  parse_value (S f) (w ++ stringify_at ind (JObj ms) ++ tail) = Some (JObj ms, tail).
Proof.
  intros Hne Hok Hnd Hw Hind Hf. destruct ms as [|m ms]; [congruence|].
  change (stringify_at ind (JObj (m :: ms))) with
    ("{" ++ LFs ++ ind ++ "  " ++ join ("," ++ LFs ++ ind ++ "  ")
       (map (member_str (ind ++ "  ")) (m :: ms)) ++ LFs ++ ind ++ "}").
  destruct (join_members_head ("," ++ LFs ++ ind ++ "  ") (ind ++ "  ") m ms) as [x Hx].
  remember (join ("," ++ LFs ++ ind ++ "  ") (map (member_str (ind ++ "  ")) (m :: ms))) as J eqn:HJ.
  rewrite <- !string_app_assoc. cbn [append].
  remember f as f' eqn:Hf'.
  cbn [parse_value]. rewrite skip_ws_app by exact Hw. rewrite skip_ws_cons by reflexivity.
  cbn -[parse_members skip_ws].
  rewrite skip_ws_lf, skip_ws_app, skip_ws_sp, skip_ws_sp, Hx by exact Hind.
  cbn [append]. rewrite skip_ws_cons by reflexivity. cbv iota.
  change (String DQ (x ++ ?t)) with (String DQ x ++ t). rewrite <- Hx. subst f'.
  replace (String LF (ind ++ String " " (String " " (J ++ String LF (ind ++ String "}" tail)))))
    with ((LFs ++ ind ++ "  ") ++ J ++ (LFs ++ ind) ++ "}" ++ tail)
    by (rewrite <- !string_app_assoc; reflexivity).
  subst J.
  apply (parse_members_ok (m :: ms) [] f); try assumption; try discriminate;
    try apply ws_indent; try assumption.
Qed.

Lemma entry_members_ok e :
  valid_entry e ->
  exists ms, entry_json e = JObj ms /\ ms <> [] /\ Forall member_ok ms /\ NoDup (map fst ms)
             /\ length ms = 8%nat.
Proof.
  intros He. eexists. split; [reflexivity|]. split; [discriminate|]. split; [|split].
  - unfold member_ok, simple_value.
    constructor; [split; [reflexivity | left; exists (date e); split;
                  [reflexivity | apply valid_date_plain, He]] |].
    repeat (constructor; [split; [reflexivity | right; eexists; reflexivity] |]).
    constructor.
  - cbn [map fst]. repeat constructor; cbn [In]; intuition discriminate.
  - reflexivity.
Qed.

Lemma parse_value_entry f w ind e tail :
  valid_entry e -> all_chars json_ws w = true -> all_chars json_ws ind = true -> (8 < f)%nat ->
  parse_value (S f) (w ++ stringify_at ind (entry_json e) ++ tail) = Some (entry_json e, tail).
Proof.
  intros He Hw Hind Hf. destruct (entry_members_ok e He) as [ms [Hms [Hne [Hok [Hnd Hlen]]]]].
  rewrite Hms. apply parse_value_obj; auto. lia.
Qed.

Lemma entry_str_head ind e : exists x, stringify_at ind (entry_json e) = String "{" x.
Proof. eexists. reflexivity. Qed.

Lemma parse_element_step f w ind e tail acc :
  valid_entry e -> all_chars json_ws w = true -> all_chars json_ws ind = true -> (8 < f)%nat ->
  parse_elements (S (S f)) (w ++ stringify_at ind (entry_json e) ++ tail) acc =
  match skip_ws tail with
  | String "," r' => parse_elements (S f) r' (acc ++ [entry_json e])%list
  | String "]" r' => Some (JArr (acc ++ [entry_json e])%list, r')
  | _ => None
  end.
Proof.
  intros He Hw Hind Hf. remember (S f) as f' eqn:Hf'. cbn [parse_elements]. subst f'.
  rewrite parse_value_entry by assumption. reflexivity.
Qed.

Lemma parse_elements_ok D : forall acc f w w' w'' ind rest,
  D <> [] -> Forall valid_entry D ->
  all_chars json_ws w = true -> all_chars json_ws w' = true -> all_chars json_ws w'' = true ->
  all_chars json_ws ind = true ->
  (length D + 9 < f)%nat ->
  parse_elements f (w ++ join ("," ++ w') (map (stringify_at ind) (map entry_json D)) ++ w'' ++ "]" ++ rest) acc
  = Some (JArr (acc ++ map entry_json D), rest).
Proof.
  induction D as [|e D IH]; intros acc f w w' w'' ind rest Hne HD Hw Hw' Hw'' Hind Hf; [congruence|].
  inversion HD as [|? ? He HD']; subst.
  destruct f as [|[|f]]; simpl in Hf; [lia|lia|].
  destruct D as [|e' D].
  - cbn [map join].
    rewrite parse_element_step by (assumption || lia).
    rewrite skip_ws_app by exact Hw''. reflexivity.
  - change (join ("," ++ w') (map (stringify_at ind) (map entry_json (e :: e' :: D))))
      with (stringify_at ind (entry_json e) ++ ("," ++ w')
            ++ join ("," ++ w') (map (stringify_at ind) (map entry_json (e' :: D)))).
    rewrite <- (string_app_assoc (stringify_at ind (entry_json e))).
    rewrite parse_element_step by (assumption || lia).
    cbn [append]. rewrite skip_ws_cons by reflexivity.
    cbv iota. rewrite <- string_app_assoc.
    change (join (String "," w')) with (join ("," ++ w')).
    change (String "]" rest) with ("]" ++ rest).
    rewrite IH; [rewrite <- app_assoc; reflexivity | discriminate | exact HD' | assumption .. | ].
    simpl in Hf |- *. lia.
Qed.

Lemma join_length_lb sep l k :
  Forall (fun s => (k <= String.length s)%nat) l -> (k * length l <= String.length (join sep l))%nat.
Proof.
  induction 1 as [|x l Hx Hl IH]; [simpl; lia|].
  destruct l as [|y l]; [simpl; lia|].
  change (join sep (x :: y :: l)) with (x ++ sep ++ join sep (y :: l)).
  rewrite !string_length_app. simpl length in *. lia.
Qed.

Lemma entry_str_length e : (11 <= String.length (stringify_at "  " (entry_json e)))%nat.
Proof. simpl. lia. Qed.

Lemma JSON_parse_encode D :
  Forall valid_entry D -> JSON_parse (encode Json D) = Some (JArr (map entry_json D)).
Proof.
  intros HD. destruct D as [|e D']; [reflexivity|].
  unfold encode, JSON_parse.
  change (JSON_stringify (JArr (map entry_json (e :: D')))) with
    ("[" ++ LFs ++ "  " ++ join ("," ++ LFs ++ "  ") (map (stringify_at "  ") (map entry_json (e :: D')))
     ++ LFs ++ "]").
  remember (join ("," ++ LFs ++ "  ") (map (stringify_at "  ") (map entry_json (e :: D')))) as J eqn:HJ.
  assert (Hlen : (length (e :: D') + 9 < String.length ("[" ++ LFs ++ "  " ++ J ++ LFs ++ "]"))%nat).
  { rewrite !string_length_app. cbn [String.length append LFs].
    assert (H := join_length_lb ("," ++ LFs ++ "  ") (map (stringify_at "  ") (map entry_json (e :: D'))) 11).
    rewrite <- HJ, !length_map in H.
    assert (Hf : Forall (fun s => (11 <= String.length s)%nat)
                   (map (stringify_at "  ") (map entry_json (e :: D')))).
    { rewrite map_map. apply Forall_forall. intros s Hs. apply in_map_iff in Hs as [x [<- _]].
      apply entry_str_length. }
    specialize (H Hf). simpl length in *. lia. }
  generalize dependent (String.length ("[" ++ LFs ++ "  " ++ J ++ LFs ++ "]")). intros len Hlen.
  destruct (entry_str_head "  " e) as [x Hx].
  cbn [parse_value append]. cbn -[parse_elements skip_ws].
  rewrite skip_ws_cons by reflexivity. cbv iota. rewrite Ascii.eqb_refl. cbv iota.
  rewrite skip_ws_lf, skip_ws_sp, skip_ws_sp.
  assert (HJx : exists y, J = String "{" y).
  { subst J. cbn [map]. destruct D'; cbn [map join]; rewrite Hx; [eexists; reflexivity|].
    eexists. reflexivity. }
  destruct HJx as [y Hy]. rewrite Hy. cbn [append]. rewrite skip_ws_cons by reflexivity.
  cbv iota. change (String "{" (y ++ ?t)) with (String "{" y ++ t). rewrite <- Hy.
  replace (String LF (String " " (String " " (J ++ String LF "]"))))
    with ((LFs ++ "  ") ++ J ++ LFs ++ "]" ++ EmptyString)
    by (rewrite <- !string_app_assoc; reflexivity).
  subst J. rewrite (parse_elements_ok (e :: D') [] len); try assumption; try reflexivity; try discriminate.
Qed.

Lemma findIndex_date_entries d D :
  findIndex_date d (map entry_json D) = Ok (findIndex (fun e => String.eqb (date e) d) D).
Proof.
  induction D as [|e D IH]; [reflexivity|].
  simpl. rewrite IH. destruct (String.eqb (date e) d); reflexivity.
Qed.

Lemma make_entry_upsert R :
  make_entry (date R) (mkStats (stargazers R) (commits R) (contributors R))
    (mkCounts (traffic_views R) (traffic_uniques R))
    (mkCounts (clones_count R) (clones_uniques R)) = R.
Proof. destruct R; reflexivity. Qed.

Lemma generate_json_encode D R :
  Forall valid_entry D ->
  generate_json (encode Json D) R = Ok (encode Json (upsert_entries D R)).
Proof.
  intros HD. unfold generate_json. rewrite JSON_parse_encode by exact HD.
  rewrite findIndex_date_entries. unfold upsert_entries, encode.
  destruct (findIndex _ D).
  - rewrite map_set_nth. reflexivity.
  - rewrite map_app. reflexivity.
Qed.

Lemma upsert_encode fmt D R :
  Forall valid_entry D -> valid_entry R ->
  upsert fmt (encode fmt D) R = Ok (encode fmt (upsert_entries D R)).
Proof.
  intros HD HR. unfold upsert, generateFileContent. cbv zeta. rewrite make_entry_upsert.
  destruct fmt.
  - rewrite generate_json_encode by exact HD. reflexivity.
  - rewrite generate_csv_encode by assumption. reflexivity.
Qed.

(** ** Files that hold a dataset *)

(** The text [f] holds the records [D]: [JSON.parse] gives the array of
    their objects, or the non-blank lines are the header and their rows. *)
Definition represents (fmt : format) (f : string) (D : list entry) : Prop :=
  match fmt with
  | Json => JSON_parse f = Some (JArr (map entry_json D))
  | Csv => csv_lines f = csv_header_line :: map csv_line D
  end.

Lemma represents_encode fmt D : Forall valid_entry D -> represents fmt (encode fmt D) D.
Proof.
  intros HD. destruct fmt; cbn [represents encode].
  - apply JSON_parse_encode, HD.
  - apply csv_lines_join; [discriminate|]. constructor; [exact csv_header_ok|].
    apply Forall_map. eapply Forall_impl; [|exact HD]. intros e He. apply csv_line_ok, He.
Qed.

Lemma upsert_represents fmt f D R :
  represents fmt f D -> Forall valid_entry D -> valid_entry R ->
  upsert fmt f R = Ok (encode fmt (upsert_entries D R)).
Proof.
  intros Hf HD HR. rewrite <- (upsert_encode fmt D R HD HR).
  unfold upsert, generateFileContent. destruct fmt; cbn [represents] in Hf.
  - unfold generate_json. rewrite Hf, JSON_parse_encode by exact HD. reflexivity.
  - unfold generate_csv. rewrite Hf.
    pose proof (represents_encode Csv D HD) as He. cbn [represents] in He. rewrite He. reflexivity.
Qed.

(** *** Decoding is unambiguous *)

Lemma string_of_uint_inj d d' : string_of_uint d = string_of_uint d' -> d = d'.
Proof.
  revert d'. induction d; intros [] H; simpl in H; try discriminate;
    try (injection H as H; f_equal; apply IHd, H); reflexivity.
Qed.

Lemma string_of_N_inj n n' : string_of_N n = string_of_N n' -> n = n'.
Proof.
  unfold string_of_N. intros H. apply string_of_uint_inj in H.
  rewrite <- (DecimalN.Unsigned.of_to n), <- (DecimalN.Unsigned.of_to n'), H. reflexivity.
Qed.

Lemma app_same_length a b x y :
  String.length a = String.length b -> a ++ x = b ++ y -> a = b /\ x = y.
Proof.
  revert b. induction a as [|c a IH]; intros [|c' b] Hl H; simpl in *; try discriminate; auto.
  injection H as -> H. injection Hl as Hl. destruct (IH b Hl H) as [-> ->]. auto.
Qed.

Lemma digits_comma a b x y :
  all_chars is_digit a = true -> all_chars is_digit b = true ->
  a ++ String "," x = b ++ String "," y -> a = b /\ x = y.
Proof.
  revert b. induction a as [|c a IH]; intros [|c' b] Ha Hb H; simpl in *.
  - injection H as ->. auto.
  - injection H as <- _. discriminate Hb.
  - injection H as -> _. discriminate Ha.
  - apply andb_prop in Ha as [_ Ha]. apply andb_prop in Hb as [_ Hb].
    injection H as -> H. destruct (IH b Ha Hb H) as [-> ->]. auto.
Qed.

Lemma string_of_N_digits n : all_chars is_digit (string_of_N n) = true.
Proof. apply string_of_uint_digits. Qed.

Lemma csv_line_inj e e' : valid_entry e -> valid_entry e' -> csv_line e = csv_line e' -> e = e'.
Proof.
  intros He He' H. rewrite !csv_line_eq in H.
  apply app_same_length in H as [Hd H];
    [| rewrite (valid_date_length _ He), (valid_date_length _ He'); reflexivity].
  injection H as H.
  repeat (apply digits_comma in H as [?%string_of_N_inj H]; [| apply string_of_N_digits ..]).
  apply string_of_N_inj in H.
  destruct e, e'; simpl in *; subst; reflexivity.
Qed.

Lemma entry_json_inj e e' : entry_json e = entry_json e' -> e = e'.
Proof.
  unfold entry_json. intros H. injection H as H1 H2 H3 H4 H5 H6 H7 H8.
  apply N2Z.inj in H2, H3, H4, H5, H6, H7, H8.
  destruct e, e'; simpl in *; subst; reflexivity.
Qed.

Lemma map_inj_on {A B} (f : A -> B) (P : A -> Prop) :
  (forall x y, P x -> P y -> f x = f y -> x = y) ->
  forall l l', Forall P l -> Forall P l' -> map f l = map f l' -> l = l'.
Proof.
  intros Hf l. induction l as [|x l IH]; intros [|y l'] Hl Hl' H; simpl in H; try discriminate; auto.
  inversion Hl; inversion Hl'; subst. injection H as Hxy H.
  f_equal; [apply Hf | apply IH]; auto.
Qed.

Lemma represents_unique fmt f D D' :
  Forall valid_entry D -> Forall valid_entry D' ->
  represents fmt f D -> represents fmt f D' -> D = D'.
Proof.
  intros HD HD' H H'. destruct fmt; cbn [represents] in H, H'; rewrite H in H'.
  - injection H' as H'. apply (map_inj_on entry_json (fun _ => True)); auto.
    + intros x y _ _. apply entry_json_inj.
    + apply Forall_forall. auto.
    + apply Forall_forall. auto.
  - injection H' as H'. apply (map_inj_on csv_line valid_entry); auto. apply csv_line_inj.
Qed.

(** ** The monad *)

Lemma bind_ok {A B} (m : M A) (k : A -> M B) w a w' :
  m w = (Ok a, w') -> bind m k w = k a w'.
Proof. intros H. unfold bind. rewrite H. reflexivity. Qed.

Lemma bind_err {A B} (m : M A) (k : A -> M B) w e w' :
  m w = (Err e, w') -> bind m k w = (Err e, w').
Proof. intros H. unfold bind. rewrite H. reflexivity. Qed.

Lemma bind_assoc {A B C} (m : M A) (k : A -> M B) (h : B -> M C) w :
  bind (bind m k) h w = bind m (fun a => bind (k a) h) w.
Proof. unfold bind. destruct (m w) as [[a|e] w']; reflexivity. Qed.

Lemma bind_ext {A B} (m : M A) (k k' : A -> M B) w :
  (forall a w', k a w' = k' a w') -> bind m k w = bind m k' w.
Proof. intros H. unfold bind. destruct (m w) as [[a|e] w']; auto. Qed.

Lemma try_catch_ok {A} (m : M A) h w a w' :
  m w = (Ok a, w') -> try_catch m h w = (Ok a, w').
Proof. intros H. unfold try_catch. rewrite H. reflexivity. Qed.

Lemma try_catch_err {A} (m : M A) h w e w' :
  m w = (Err e, w') -> try_catch m h w = h e w'.
Proof. intros H. unfold try_catch. rewrite H. reflexivity. Qed.

Lemma request_ok {A} ep ev (serve : M A) w :
  lookup endpoint_beq ep (failing w) = None -> request ep ev serve w = serve (log ev w).
Proof. intros H. unfold request. rewrite H. reflexivity. Qed.

Lemma request_fail {A} ep ev (serve : M A) w st :
  lookup endpoint_beq ep (failing w) = Some st -> request ep ev serve w = (Err (HttpError st), log ev w).
Proof. intros H. unfold request. rewrite H. reflexivity. Qed.

Lemma lookup_endpoint_nil ep : lookup endpoint_beq ep [] = @None Z.
Proof. reflexivity. Qed.

(** ** [ensureBranchExists] *)

Lemma getRef_found b w c :
  lookup endpoint_beq EGetRef (failing w) = None ->
  lookup String.eqb b (refs w) = Some c ->
  getRef b w = (Ok c, log (GetRef b) w).
Proof. intros Hf Hb. unfold getRef. rewrite request_ok by exact Hf. simpl. rewrite Hb. reflexivity. Qed.

Lemma getRef_missing b w :
  lookup endpoint_beq EGetRef (failing w) = None ->
  lookup String.eqb b (refs w) = None ->
  getRef b w = (Err (HttpError 404), log (GetRef b) w).
Proof. intros Hf Hb. unfold getRef. rewrite request_ok by exact Hf. simpl. rewrite Hb. reflexivity. Qed.

Lemma ensure_present b w h :
  lookup endpoint_beq EGetRef (failing w) = None ->
  lookup String.eqb b (refs w) = Some h ->
  ensureBranchExists b w = (Ok tt, log (GetRef b) w).
Proof.
  intros Hf Hb. unfold ensureBranchExists. apply try_catch_ok.
  erewrite bind_ok by (apply getRef_found; eassumption). reflexivity.
Qed.

Lemma ensure_absent b w main :
  lookup endpoint_beq EGetRef (failing w) = None ->
  lookup endpoint_beq ECreateRef (failing w) = None ->
  lookup String.eqb b (refs w) = None ->
  lookup String.eqb "main" (refs w) = Some main ->
  ensureBranchExists b w =
  (Ok tt, set_refs ((b, main) :: refs w) (log (CreateRef b main) (log (GetRef "main") (log (GetRef b) w)))).
Proof.
  intros Hf Hc Hb Hm. unfold ensureBranchExists.
  erewrite try_catch_err by (erewrite bind_err by (apply getRef_missing; eassumption); reflexivity).
  cbn iota beta. rewrite Z.eqb_refl.
  erewrite bind_ok by (apply getRef_found; [exact Hf | exact Hm]).
  unfold createRef. rewrite request_ok by exact Hc. simpl. rewrite Hb. reflexivity.
Qed.

(** ** [getInsightsFile] *)

(** What the [catch] of [getInsightsFile] starts from, per format. *)
Definition empty_file (fmt : format) : string :=
  match fmt with
  | Json => JSON_stringify (JArr [])
  | Csv => csv_header_line ++ LFs
  end.

(** Texts that [JSON.parse] rejects at their first token (ECMA-404: a JSON
    text is white space, one value, white space; a value starts with a bracket, a brace, a double quote, a minus sign, a
    digit, or t, f, n; an object continues with a key string or a closing
    brace). *)
Definition value_start (c : ascii) : bool :=
  Ascii.eqb c "[" || Ascii.eqb c "{" || Ascii.eqb c DQ || Ascii.eqb c "-" ||
  ((48 <=? nat_of_ascii c) && (nat_of_ascii c <=? 57))%nat ||
  Ascii.eqb c "t" || Ascii.eqb c "f" || Ascii.eqb c "n".

Definition json_bad_start (s : string) : bool :=
  match skip_ws s with
  | EmptyString => true
  | String c r =>
      if Ascii.eqb c "{" then
        match skip_ws r with
        | EmptyString => true
        | String c' _ => negb (Ascii.eqb c' DQ || Ascii.eqb c' "}")
        end
      else negb (value_start c)
  end.

Lemma parse_members_no_key f s acc :
  match skip_ws s with
  | String c _ => Ascii.eqb c DQ = false
  | EmptyString => True
  end ->
  parse_members f s acc = None.
Proof.
  intros H. destruct f as [|f]; [reflexivity|]. cbn [parse_members].
  destruct (skip_ws s) as [|c r]; [reflexivity|]. rewrite H. reflexivity.
Qed.

Lemma json_bad_start_parse s : json_bad_start s = true -> JSON_parse s = None.
Proof.
  unfold json_bad_start, JSON_parse. generalize (String.length s) as n. intros n H.
  cbn [parse_value]. destruct (skip_ws s) as [|c r] eqn:E; [reflexivity|].
  destruct c as [[] [] [] [] [] [] [] []]; cbn in H |- *; try discriminate; try reflexivity.
  destruct (skip_ws r) as [|c' r'] eqn:E2.
  - rewrite parse_members_no_key by (rewrite E2; exact I). reflexivity.
  - destruct c' as [[] [] [] [] [] [] [] []]; cbn in H |- *; try discriminate;
      rewrite parse_members_no_key by (rewrite E2; reflexivity); reflexivity.
Qed.

Lemma classify_some format fmt :
  classify format = Some fmt ->
  (format = "json" /\ fmt = Json) \/ (format = "csv" /\ fmt = Csv).
Proof.
  unfold classify. destruct (String.eqb format "json") eqn:Ej.
  - intros H. injection H as <-. left. split; [apply String.eqb_eq, Ej | reflexivity].
  - destruct (String.eqb format "csv") eqn:Ec; [|discriminate].
    intros H. injection H as <-. right. split; [apply String.eqb_eq, Ec | reflexivity].
Qed.

Lemma getInsightsFile_fallback branch rootDir owner repo format fmt w w' :
  classify format = Some fmt ->
  (exists e, getContent (filePath rootDir owner repo format) branch w = (Err e, w')) \/
  (format = "json" /\ exists c, getContent (filePath rootDir owner repo format) branch w = (Ok c, w')
                                  /\ JSON_parse c = None) ->
  getInsightsFile branch rootDir owner repo format w = (Ok (empty_file fmt, Some 0%Z), w').
Proof.
  intros Hc Hg. unfold getInsightsFile. cbv zeta.
  destruct Hg as [[e He] | [Hj [c [Hok Hp]]]].
  - erewrite try_catch_err by (apply bind_err; exact He).
    destruct (classify_some _ _ Hc) as [[-> ->] | [-> ->]]; reflexivity.
  - subst format. erewrite try_catch_err by (erewrite bind_ok by exact Hok; cbn; rewrite Hp; reflexivity).
    injection Hc as <-. reflexivity.
Qed.

Lemma getContent_missing path branch w :
  lookup endpoint_beq EGetContent (failing w) = None ->
  file_at w path branch = None ->
  getContent path branch w = (Err (HttpError 404), log (GetContent path branch) w).
Proof.
  intros Hf Hn. unfold getContent. rewrite request_ok by exact Hf.
  change (file_at (log (GetContent path branch) w) path branch) with (file_at w path branch).
  rewrite Hn. reflexivity.
Qed.

Lemma getContent_found path branch w c :
  lookup endpoint_beq EGetContent (failing w) = None ->
  file_at w path branch = Some c ->
  getContent path branch w = (Ok c, log (GetContent path branch) w).
Proof.
  intros Hf Hn. unfold getContent. rewrite request_ok by exact Hf.
  change (file_at (log (GetContent path branch) w) path branch) with (file_at w path branch).
  rewrite Hn. reflexivity.
Qed.

(** ** [run] on an unsupported format *)

Lemma getRepoStats_ok w :
  lookup endpoint_beq EGraphql (failing w) = None ->
  getRepoStats w = (Ok (stats_of_response (repository w)), log Graphql w).
Proof.
  intros Hf. unfold getRepoStats.
  rewrite (bind_ok graphql (fun response => ret (stats_of_response response)) w (repository w)
             (log Graphql w)); [reflexivity|].
  unfold graphql. rewrite request_ok by exact Hf. reflexivity.
Qed.

Lemma classify_none format :
  classify format = None -> String.eqb format "json" = false /\ String.eqb format "csv" = false.
Proof.
  unfold classify. destruct (String.eqb format "json"); [discriminate|].
  destruct (String.eqb format "csv"); [discriminate|]. auto.
Qed.

Lemma getInsightsFile_unsupported branch rootDir owner repo format w :
  classify format = None ->
  getInsightsFile branch rootDir owner repo format w =
    (Err UnsupportedFormat, log (GetContent (filePath rootDir owner repo format) branch) w).
Proof.
  intros Hc. destruct (classify_none _ Hc) as [Hj Hv].
  unfold getInsightsFile. cbv zeta. unfold try_catch, bind.
  unfold getContent, request.
  destruct (lookup endpoint_beq EGetContent (failing w)).
  - rewrite Hj, Hv. reflexivity.
  - change (file_at (log (GetContent (filePath rootDir owner repo format) branch) w)
              (filePath rootDir owner repo format) branch)
      with (file_at w (filePath rootDir owner repo format) branch).
    destruct (file_at w (filePath rootDir owner repo format) branch); rewrite Hj, Hv; reflexivity.
Qed.

(** ** The backfill loop *)

(** One pass of the body of [while (i != 1)], at offset [i]. *)
Definition backfill_day (day : nat -> string) (s : repo_stats) (fmt : format)
    (insightsFile : string) (i : nat) : M string :=
  yesterdayTraffic <- getYesterdayTraffic (day i) ;;
  yesterdayClones <- getYesterdayClones (day i) ;;
  lift (generateFileContent insightsFile s yesterdayTraffic yesterdayClones (day i) fmt).

Fixpoint foldM {A B} (step : A -> B -> M A) (a : A) (l : list B) : M A :=
  match l with
  | [] => ret a
  | x :: l' => a' <- step a x ;; foldM step a' l'
  end.

(** The offsets the loop visits from [i]: [i], [i - 1], ..., [2]. *)
Fixpoint offsets (i : nat) : list nat :=
  match i with
  | O | S O => []
  | S j => i :: offsets j
  end.

(** Successive upserts of records into a file. *)
Fixpoint upsert_all (fmt : format) (insightsFile : string) (rs : list entry) : result string :=
  match rs with
  | [] => Ok insightsFile
  | r :: rs' =>
      match upsert fmt insightsFile r with
      | Ok f' => upsert_all fmt f' rs'
      | Err e => Err e
      end
  end.

Lemma backfill_loop_foldM day s fmt i : (1 <= i)%nat ->
  forall f w, backfill_loop day s fmt i f w = foldM (backfill_day day s fmt) f (offsets i) w.
Proof.
  induction i as [|[|j] IH]; intros Hi f w; [lia | reflexivity |].
  cbn [backfill_loop offsets foldM]. unfold backfill_day.
  rewrite bind_assoc. apply bind_ext. intros tr w1.
  rewrite bind_assoc. apply bind_ext. intros cl w2.
  unfold bind, lift. destruct (generateFileContent f s tr cl (day (S (S j))) fmt); [|reflexivity].
  apply IH. lia.
Qed.

Lemma upsert_make_entry fmt f d s tr cl :
  upsert fmt f (make_entry d s tr cl) = generateFileContent f s tr cl d fmt.
Proof. destruct s, tr, cl. reflexivity. Qed.

Lemma backfill_day_ok day s fmt f i w :
  lookup endpoint_beq EGetViews (failing w) = None ->
  lookup endpoint_beq EGetClones (failing w) = None ->
  backfill_day day s fmt f i w =
    (generateFileContent f s (find_day (day i) (views w)) (find_day (day i) (clones w)) (day i) fmt,
     log GetClones (log GetViews w)).
Proof.
  intros Hv Hc.
  unfold backfill_day, getYesterdayTraffic, getYesterdayClones, getViews, getClones, bind, request,
    lift, ret.
  rewrite Hv. cbn [failing log]. rewrite Hc. reflexivity.
Qed.

Ltac metrics_events :=
  repeat (apply Forall_cons; [solve [left; reflexivity | right; reflexivity] |]); apply Forall_nil.

Lemma foldM_days day s fmt l : forall f w,
  lookup endpoint_beq EGetViews (failing w) = None ->
  lookup endpoint_beq EGetClones (failing w) = None ->
  fst (foldM (backfill_day day s fmt) f l w) =
    upsert_all fmt f (map (fun i => make_entry (day i) s (find_day (day i) (views w))
                                      (find_day (day i) (clones w))) l) /\
  (exists evs, trace (snd (foldM (backfill_day day s fmt) f l w)) = (trace w ++ evs)%list /\
               Forall (fun ev => ev = GetViews \/ ev = GetClones) evs).
Proof.
  induction l as [|i l IH]; intros f w Hv Hc.
  - split; [reflexivity|]. exists []. rewrite app_nil_r. split; [reflexivity | constructor].
  - cbn [foldM map upsert_all]. rewrite upsert_make_entry. unfold bind.
    rewrite (backfill_day_ok day s fmt f i w Hv Hc).
    destruct (generateFileContent f s _ _ (day i) fmt) as [f'|e].
    all: cbv beta iota.
    + destruct (IH f' (log GetClones (log GetViews w)) Hv Hc) as [H1 [evs [H2 H3]]].
      split; [exact H1|]. exists ([GetViews; GetClones] ++ evs)%list. split.
      * rewrite H2. simpl. rewrite <- !app_assoc. reflexivity.
      * apply Forall_app. split; [metrics_events | exact H3].
    + split; [reflexivity|]. exists [GetViews; GetClones]. split.
      * simpl. rewrite <- !app_assoc. reflexivity.
      * metrics_events.
Qed.

(** ** The totals are queried once per run *)

Definition is_graphql (ev : event) : bool :=
  match ev with
  | Graphql => true
  | _ => false
  end.

Definition graphql_calls (w : world) : nat := length (filter is_graphql (trace w)).

(** A computation that sends no GraphQL query. *)
Definition no_graphql {A} (m : M A) : Prop :=
  forall w, graphql_calls (snd (m w)) = graphql_calls w.

Create HintDb no_graphql.

Lemma no_graphql_ret {A} (a : A) : no_graphql (ret a).
Proof. intros w. reflexivity. Qed.

Lemma no_graphql_throw {A} e : no_graphql (@throw A e).
Proof. intros w. reflexivity. Qed.

Lemma no_graphql_lift {A} (r : result A) : no_graphql (lift r).
Proof. intros w. reflexivity. Qed.

Lemma no_graphql_bind {A B} (m : M A) (k : A -> M B) :
  no_graphql m -> (forall a, no_graphql (k a)) -> no_graphql (bind m k).
Proof.
  intros Hm Hk w. unfold bind. specialize (Hm w).
  destruct (m w) as [[a|e] w']; simpl in *; [rewrite Hk|]; exact Hm.
Qed.

Lemma no_graphql_try_catch {A} (m : M A) h :
  no_graphql m -> (forall e, no_graphql (h e)) -> no_graphql (try_catch m h).
Proof.
  intros Hm Hh w. unfold try_catch. specialize (Hm w).
  destruct (m w) as [[a|e] w']; simpl in *; [|rewrite Hh]; exact Hm.
Qed.

Lemma graphql_calls_log ev w :
  graphql_calls (log ev w) = (graphql_calls w + if is_graphql ev then 1 else 0)%nat.
Proof.
  unfold graphql_calls, log. cbn [trace]. rewrite filter_app, length_app. simpl.
  destruct (is_graphql ev); reflexivity.
Qed.

Lemma no_graphql_request {A} ep ev (serve : M A) :
  is_graphql ev = false -> no_graphql serve -> no_graphql (request ep ev serve).
Proof.
  intros Hev Hs w. unfold request.
  destruct (lookup endpoint_beq ep (failing w)); cbn [snd];
    [|rewrite Hs]; rewrite graphql_calls_log, Hev; lia.
Qed.

#[local] Hint Resolve no_graphql_ret no_graphql_throw no_graphql_lift no_graphql_bind
  no_graphql_try_catch : no_graphql.

Ltac no_graphql_request :=
  apply no_graphql_request; [reflexivity|]; intros w;
  repeat match goal with |- context [match ?x with _ => _ end] => destruct x end; reflexivity.

Lemma no_graphql_getViews : no_graphql getViews.
Proof. unfold getViews. no_graphql_request. Qed.

Lemma no_graphql_getClones : no_graphql getClones.
Proof. unfold getClones. no_graphql_request. Qed.

Lemma no_graphql_getRef b : no_graphql (getRef b).
Proof. unfold getRef. no_graphql_request. Qed.

Lemma no_graphql_createRef b c : no_graphql (createRef b c).
Proof. unfold createRef. no_graphql_request. Qed.

Lemma no_graphql_getContent p b : no_graphql (getContent p b).
Proof. unfold getContent. no_graphql_request. Qed.

Lemma no_graphql_getCommit c : no_graphql (getCommit c).
Proof. unfold getCommit. no_graphql_request. Qed.

Lemma no_graphql_createBlob c : no_graphql (createBlob c).
Proof. unfold createBlob. no_graphql_request. Qed.

Lemma no_graphql_createTree b p c : no_graphql (createTree b p c).
Proof. unfold createTree. no_graphql_request. Qed.

Lemma no_graphql_createCommit t ps : no_graphql (createCommit t ps).
Proof. unfold createCommit. no_graphql_request. Qed.

Lemma no_graphql_updateRef b c : no_graphql (updateRef b c).
Proof. unfold updateRef. no_graphql_request. Qed.

Lemma no_graphql_setFailed e : no_graphql (setFailed e).
Proof. intros w. unfold setFailed. cbn [snd]. rewrite graphql_calls_log. simpl. lia. Qed.

#[local] Hint Resolve no_graphql_getViews no_graphql_getClones no_graphql_getRef
  no_graphql_createRef no_graphql_getContent no_graphql_getCommit no_graphql_createBlob
  no_graphql_createTree no_graphql_createCommit no_graphql_updateRef no_graphql_setFailed
  : no_graphql.

Lemma no_graphql_getYesterdayTraffic d : no_graphql (getYesterdayTraffic d).
Proof. unfold getYesterdayTraffic. auto with no_graphql. Qed.

Lemma no_graphql_getYesterdayClones d : no_graphql (getYesterdayClones d).
Proof. unfold getYesterdayClones. auto with no_graphql. Qed.

Lemma no_graphql_ensureBranchExists b : no_graphql (ensureBranchExists b).
Proof.
  unfold ensureBranchExists. apply no_graphql_try_catch; [auto with no_graphql|].
  intros [st| | | | | |]; try destruct (Z.eqb st 404); auto with no_graphql.
Qed.

Lemma no_graphql_getInsightsFile b r o p f : no_graphql (getInsightsFile b r o p f).
Proof.
  unfold getInsightsFile. cbv zeta. apply no_graphql_try_catch.
  - apply no_graphql_bind; [auto with no_graphql|]. intros c.
    destruct (String.eqb f "json"); [destruct (JSON_parse c)|destruct (String.eqb f "csv")];
      auto with no_graphql.
  - intros e. destruct (String.eqb f "json"); [|destruct (String.eqb f "csv")]; auto with no_graphql.
Qed.

Lemma no_graphql_commitFileToBranch b p c : no_graphql (commitFileToBranch b p c).
Proof. unfold commitFileToBranch. auto 10 with no_graphql. Qed.

#[local] Hint Resolve no_graphql_getYesterdayTraffic no_graphql_getYesterdayClones : no_graphql.

Lemma no_graphql_backfill_loop day s fmt i f : no_graphql (backfill_loop day s fmt i f).
Proof.
  revert f. induction i as [|[|j] IH]; intros f; cbn [backfill_loop]; auto 10 with no_graphql.
Qed.

Lemma no_graphql_backfill day s fmt k f : no_graphql (backfill day s fmt k f).
Proof.
  unfold backfill. destruct (lt14 k); [apply no_graphql_backfill_loop | auto with no_graphql].
Qed.

#[local] Hint Resolve no_graphql_ensureBranchExists no_graphql_getInsightsFile
  no_graphql_commitFileToBranch no_graphql_backfill : no_graphql.

Lemma getRepoStats_graphql w : graphql_calls (snd (getRepoStats w)) = S (graphql_calls w).
Proof.
  unfold getRepoStats, graphql, bind, request.
  destruct (lookup endpoint_beq EGraphql (failing w)); cbn [snd ret];
    rewrite graphql_calls_log; simpl; lia.
Qed.

Lemma graphql_bind_once {A B} (m : M A) (k : A -> M B) :
  (forall w, graphql_calls (snd (m w)) = S (graphql_calls w)) -> (forall a, no_graphql (k a)) ->
  forall w, graphql_calls (snd (bind m k w)) = S (graphql_calls w).
Proof.
  intros Hm Hk w. unfold bind. specialize (Hm w).
  destruct (m w) as [[a|e] w']; cbn [snd] in *; [rewrite Hk|]; exact Hm.
Qed.

Lemma graphql_try_catch_once {A} (m : M A) h :
  (forall w, graphql_calls (snd (m w)) = S (graphql_calls w)) -> (forall e, no_graphql (h e)) ->
  forall w, graphql_calls (snd (try_catch m h w)) = S (graphql_calls w).
Proof.
  intros Hm Hh w. unfold try_catch. specialize (Hm w).
  destruct (m w) as [[a|e] w']; cbn [snd] in *; [|rewrite Hh]; exact Hm.
Qed.

Lemma run_graphql_once inp w : graphql_calls (snd (run inp w)) = S (graphql_calls w).
Proof.
  unfold run. apply graphql_try_catch_once; [|auto with no_graphql].
  unfold run_body. cbv zeta. apply graphql_bind_once; [exact getRepoStats_graphql|]. intros s.
  apply no_graphql_bind; [auto with no_graphql|]. intros _.
  apply no_graphql_bind; [auto with no_graphql|]. intros [f k].
  destruct (classify _); auto 10 with no_graphql.
Qed.

Definition sample_entry (d : string) (n : N) : entry := mkEntry d n 3 2 5 4 1 1.

Definition format_name (fmt : format) : string :=
  match fmt with
  | Json => "json"
  | Csv => "csv"
  end.

Lemma getInsightsFile_encoded branch rootDir owner repo fmt D w :
  Forall valid_entry D ->
  lookup endpoint_beq EGetContent (failing w) = None ->
  file_at w (filePath rootDir owner repo (format_name fmt)) branch = Some (encode fmt D) ->
  getInsightsFile branch rootDir owner repo (format_name fmt) w =
    (Ok (encode fmt D, Some (Z.of_nat (length D))),
     log (GetContent (filePath rootDir owner repo (format_name fmt)) branch) w).
Proof.
  intros HD Hf Hfile. pose proof (represents_encode fmt D HD) as Hr.
  unfold getInsightsFile. cbv zeta. apply try_catch_ok.
  erewrite bind_ok by (apply getContent_found; eassumption).
  destruct fmt; cbn [represents format_name] in *.
  - cbv beta. change (String.eqb "json" "json") with true. cbv iota.
    rewrite Hr. cbn. rewrite length_map. reflexivity.
  - cbv beta. change (String.eqb "csv" "json") with false. change (String.eqb "csv" "csv") with true.
    cbv iota zeta. rewrite Hr. unfold ret. cbn [length]. rewrite length_map.
    rewrite Nat2Z.inj_succ, Z.sub_1_r, Z.pred_succ. reflexivity.
Qed.

Lemma findIndex_first {A} (p : A -> bool) l i x :
  nth_error l i = Some x -> p x = true ->
  (forall j y, (j < i)%nat -> nth_error l j = Some y -> p y = false) ->
  findIndex p l = Some i.
Proof.
  revert i. induction l as [|z l IH]; intros [|i] Hx Hp Hbefore; simpl in *; try discriminate.
  - injection Hx as ->. rewrite Hp. reflexivity.
  - rewrite (Hbefore 0%nat z) by (reflexivity || lia).
    rewrite (IH i Hx Hp); [reflexivity|]. intros j y Hj Hy. apply (Hbefore (S j)); [lia | exact Hy].
Qed.

Lemma length_set_nth {A} i (x : A) l : length (set_nth i x l) = length l.
Proof. revert i. induction l as [|z l IH]; intros [|i]; simpl; auto. Qed.

Lemma nth_error_set_nth {A} i (x : A) l j :
  (i < length l)%nat ->
  nth_error (set_nth i x l) j = if Nat.eqb j i then Some x else nth_error l j.
Proof.
  revert i j. induction l as [|z l IH]; intros [|i] [|j] Hi; simpl in *; try lia; try reflexivity.
  apply IH. lia.
Qed.

(** ** [commitFileToBranch] step by step *)

Lemma world_ext w w' :
  refs w = refs w' -> git_commits w = git_commits w' -> git_trees w = git_trees w' ->
  git_blobs w = git_blobs w' -> next_id w = next_id w' -> repository w = repository w' ->
  views w = views w' -> clones w = clones w' -> failing w = failing w' -> trace w = trace w' ->
  w = w'.
Proof. destruct w, w'. cbn. intros. subst. reflexivity. Qed.

Lemma getCommit_found c w cm :
  lookup endpoint_beq EGetCommit (failing w) = None ->
  lookup Nat.eqb c (git_commits w) = Some cm ->
  getCommit c w = (Ok (commit_tree cm), log (GetCommit c) w).
Proof. intros Hf H. unfold getCommit. rewrite request_ok by exact Hf. cbn [git_commits log]. rewrite H. reflexivity. Qed.

Lemma createBlob_ok c w :
  lookup endpoint_beq ECreateBlob (failing w) = None ->
  createBlob c w = (Ok (next_id w), add_blob c (log (CreateBlob c) w)).
Proof. intros Hf. unfold createBlob. rewrite request_ok by exact Hf. reflexivity. Qed.

Lemma createTree_found base p bl w t :
  lookup endpoint_beq ECreateTree (failing w) = None ->
  lookup Nat.eqb base (git_trees w) = Some t ->
  createTree base p bl w =
    (Ok (next_id w), add_tree ((p, bl) :: filter (fun pb => negb (String.eqb (fst pb) p)) t)
                       (log (CreateTree base p bl) w)).
Proof. intros Hf H. unfold createTree. rewrite request_ok by exact Hf. cbn [git_trees log]. rewrite H. reflexivity. Qed.

Lemma createCommit_ok tr ps w :
  lookup endpoint_beq ECreateCommit (failing w) = None ->
  createCommit tr ps w = (Ok (next_id w), add_commit (mkCommit tr ps) (log (CreateCommit tr ps) w)).
Proof. intros Hf. unfold createCommit. rewrite request_ok by exact Hf. reflexivity. Qed.

Lemma updateRef_found b n w h :
  lookup endpoint_beq EUpdateRef (failing w) = None ->
  lookup String.eqb b (refs w) = Some h ->
  updateRef b n w = (Ok tt, set_refs (update String.eqb b n (refs w)) (log (UpdateRef b n) w)).
Proof. intros Hf H. unfold updateRef. rewrite request_ok by exact Hf. cbn [refs log]. rewrite H. reflexivity. Qed.

Lemma commitFileToBranch_ok b p c w h cm t :
  failing w = [] ->
  lookup String.eqb b (refs w) = Some h ->
  lookup Nat.eqb h (git_commits w) = Some cm ->
  lookup Nat.eqb (commit_tree cm) (git_trees w) = Some t ->
  commitFileToBranch b p c w =
  (Ok tt, mkWorld (update String.eqb b (S (S (next_id w))) (refs w))
            ((S (S (next_id w)), mkCommit (S (next_id w)) [h]) :: git_commits w)
            ((S (next_id w), (p, next_id w) :: filter (fun pb => negb (String.eqb (fst pb) p)) t)
               :: git_trees w)
            ((next_id w, c) :: git_blobs w) (S (S (S (next_id w)))) (repository w) (views w)
            (clones w) (failing w)
            (trace w ++ [GetRef b; GetCommit h; CreateBlob c; CreateTree (commit_tree cm) p (next_id w);
                         CreateCommit (S (next_id w)) [h]; UpdateRef b (S (S (next_id w)))])%list).
Proof.
  intros Hf Hb Hh Ht.
  assert (Hn : forall ep, lookup endpoint_beq ep (failing w) = None) by (intros; rewrite Hf; reflexivity).
  unfold commitFileToBranch.
  erewrite bind_ok by (apply getRef_found; [exact (Hn _) | exact Hb]).
  erewrite bind_ok by (apply getCommit_found; [exact (Hn _) | exact Hh]).
  erewrite bind_ok by (apply createBlob_ok; exact (Hn _)).
  erewrite bind_ok by (apply createTree_found; [exact (Hn _) | exact Ht]).
  erewrite bind_ok by (apply createCommit_ok; exact (Hn _)).
  rewrite (updateRef_found b _ _ h);
    [| cbn [failing add_commit add_tree add_blob log]; rewrite Hf; reflexivity
     | cbn [refs add_commit add_tree add_blob log]; exact Hb].
  f_equal. apply world_ext;
    cbn [refs git_commits git_trees git_blobs next_id repository views clones failing trace
         set_refs log add_commit add_tree add_blob];
    try reflexivity.
  repeat rewrite <- app_assoc. reflexivity.
Qed.

Definition ids_below (w : world) : Prop :=
  Forall (fun bc => (snd bc < next_id w)%nat) (refs w) /\
  Forall (fun cc => (commit_tree (snd cc) < next_id w)%nat) (git_commits w) /\
  Forall (fun tp => Forall (fun pb => (snd pb < next_id w)%nat) (snd tp)) (git_trees w).

Lemma lookup_Forall {K V} (eqb : K -> K -> bool) (P : V -> Prop) k l v :
  Forall (fun kv => P (snd kv)) l -> lookup eqb k l = Some v -> P v.
Proof.
  induction 1 as [|[k' v'] l Hkv Hl IH]; simpl; [discriminate|].
  destruct (eqb k k'); [intros H; injection H as <-; exact Hkv | exact IH].
Qed.

Lemma lookup_update_same b v (l : list (string * nat)) :
  lookup String.eqb b l <> None -> lookup String.eqb b (update String.eqb b v l) = Some v.
Proof.
  induction l as [|[k x] l IH]; simpl; [congruence|].
  destruct (String.eqb b k) eqn:E; simpl; rewrite E; auto.
Qed.

Lemma lookup_update_other b b' v (l : list (string * nat)) :
  b' <> b -> lookup String.eqb b' (update String.eqb b v l) = lookup String.eqb b' l.
Proof.
  intros Hne. induction l as [|[k x] l IH]; simpl; [reflexivity|].
  destruct (String.eqb b k) eqn:E; simpl.
  - apply String.eqb_eq in E. subst k. apply String.eqb_neq in Hne. rewrite Hne. reflexivity.
  - rewrite IH. reflexivity.
Qed.

Lemma lookup_filter_other p p' (t : list (string * nat)) :
  p' <> p -> lookup String.eqb p' (filter (fun pb => negb (String.eqb (fst pb) p)) t) =
             lookup String.eqb p' t.
Proof.
  intros Hne. induction t as [|[k x] t IH]; simpl; [reflexivity|].
  destruct (String.eqb k p) eqn:E; simpl.
  - apply String.eqb_eq in E. subst k. apply String.eqb_neq in Hne. rewrite Hne. exact IH.
  - rewrite IH. reflexivity.
Qed.

Lemma lookup_nat_below {V} k n (x : V) l : (k < n)%nat ->
  lookup Nat.eqb k ((n, x) :: l) = lookup Nat.eqb k l.
Proof. intros H. simpl. destruct (Nat.eqb_spec k n); [lia | reflexivity]. Qed.

Lemma commitFileToBranch_other_files b p c w h cm t :
  failing w = [] -> ids_below w ->
  lookup String.eqb b (refs w) = Some h ->
  lookup Nat.eqb h (git_commits w) = Some cm ->
  lookup Nat.eqb (commit_tree cm) (git_trees w) = Some t ->
  forall b' p', b' <> b \/ p' <> p ->
  file_at (snd (commitFileToBranch b p c w)) p' b' = file_at w p' b'.
Proof.
  intros Hf [Hr [Hc Ht0]] Hb Hh Ht.
  rewrite (commitFileToBranch_ok b p c w h cm t Hf Hb Hh Ht). cbn [snd].
  set (n := next_id w).
  assert (Hbb : lookup String.eqb b (update String.eqb b (S (S n)) (refs w)) = Some (S (S n)))
    by (apply lookup_update_same; congruence).
  intros b' p' Hne. unfold file_at. cbn [refs git_commits git_trees git_blobs].
    assert (Hold : forall c', lookup String.eqb b' (refs w) = Some c' ->
      match lookup Nat.eqb c' (git_commits w) with
      | Some cm0 => match lookup Nat.eqb (commit_tree cm0) (git_trees w) with
                    | Some t0 => match lookup String.eqb p' t0 with
                                 | Some bid => lookup Nat.eqb bid ((n, c) :: git_blobs w)
                                 | None => None end
                    | None => None end
      | None => None end =
      match lookup Nat.eqb c' (git_commits w) with
      | Some cm0 => match lookup Nat.eqb (commit_tree cm0) (git_trees w) with
                    | Some t0 => match lookup String.eqb p' t0 with
                                 | Some bid => lookup Nat.eqb bid (git_blobs w)
                                 | None => None end
                    | None => None end
      | None => None end).
    { intros c' _. destruct (lookup Nat.eqb c' (git_commits w)) as [cm0|] eqn:E1; [|reflexivity].
      destruct (lookup Nat.eqb (commit_tree cm0) (git_trees w)) as [t0|] eqn:E2; [|reflexivity].
      destruct (lookup String.eqb p' t0) as [bid|] eqn:E3; [|reflexivity].
      assert (Ht1 : Forall (fun pb => (snd pb < n)%nat) t0)
        by exact (lookup_Forall _ (fun t1 => Forall (fun pb => (snd pb < n)%nat) t1) _ _ _ Ht0 E2).
      apply lookup_nat_below. exact (lookup_Forall _ (fun x => (x < n)%nat) _ _ _ Ht1 E3). }
    destruct (String.eqb_spec b' b) as [->|Hb'].
    - destruct Hne as [Hne|Hp']; [congruence|]. rewrite Hbb, Hb. simpl. rewrite !Nat.eqb_refl.
      simpl. destruct (String.eqb_spec p' p) as [|_]; [congruence|].
      rewrite lookup_filter_other by exact Hp'.
      specialize (Hold h Hb). rewrite Hh, Ht in Hold. rewrite Hh, Ht. exact Hold.
    - rewrite lookup_update_other by exact Hb'.
      destruct (lookup String.eqb b' (refs w)) as [c'|] eqn:Ec; [|reflexivity].
      assert (Hc' : (c' < n)%nat) by exact (lookup_Forall _ (fun c => (c < n)%nat) _ _ _ Hr Ec).
      rewrite lookup_nat_below by lia.
      rewrite <- (Hold c' eq_refl).
      destruct (lookup Nat.eqb c' (git_commits w)) as [cm0|] eqn:E1; [|reflexivity].
      assert (Hct : (commit_tree cm0 < n)%nat)
        by exact (lookup_Forall _ (fun cm1 => (commit_tree cm1 < n)%nat) _ _ _ Hc E1).
      rewrite lookup_nat_below by lia. reflexivity. 
Qed.

Lemma commitFileToBranch_file_at b p c w h cm t :
  failing w = [] ->
  lookup String.eqb b (refs w) = Some h ->
  lookup Nat.eqb h (git_commits w) = Some cm ->
  lookup Nat.eqb (commit_tree cm) (git_trees w) = Some t ->
  fst (commitFileToBranch b p c w) = Ok tt /\
  file_at (snd (commitFileToBranch b p c w)) p b = Some c /\
  exists n tr, lookup String.eqb b (refs (snd (commitFileToBranch b p c w))) = Some n /\
               lookup Nat.eqb n (git_commits (snd (commitFileToBranch b p c w))) = Some (mkCommit tr [h]).
Proof.
  intros Hf Hb Hh Ht. rewrite (commitFileToBranch_ok b p c w h cm t Hf Hb Hh Ht). cbn [fst snd].
  assert (Hbb : lookup String.eqb b (update String.eqb b (S (S (next_id w))) (refs w))
                = Some (S (S (next_id w)))) by (apply lookup_update_same; congruence).
  split; [reflexivity|]. split.
  - unfold file_at. cbn [refs git_commits git_trees git_blobs commit_tree].
    rewrite Hbb. simpl. rewrite !Nat.eqb_refl. simpl. rewrite String.eqb_refl. simpl. rewrite Nat.eqb_refl. reflexivity.
  - exists (S (S (next_id w))), (S (next_id w)). split; [exact Hbb|]. simpl. rewrite Nat.eqb_refl. reflexivity.
Qed.

(** ** A whole run that succeeds *)

Definition with_trace (w : world) (tr : list event) : world :=
  mkWorld (refs w) (git_commits w) (git_trees w) (git_blobs w) (next_id w) (repository w)
    (views w) (clones w) (failing w) tr.

Lemma foldM_days_store day s fmt l : forall f w,
  lookup endpoint_beq EGetViews (failing w) = None ->
  lookup endpoint_beq EGetClones (failing w) = None ->
  snd (foldM (backfill_day day s fmt) f l w) =
    with_trace w (trace (snd (foldM (backfill_day day s fmt) f l w))).
Proof.
  induction l as [|i l IH]; intros f w Hv Hc.
  - destruct w; reflexivity.
  - cbn [foldM]. pose proof (backfill_day_ok day s fmt f i w Hv Hc) as Hd.
    destruct (generateFileContent f s _ _ (day i) fmt) as [f'|e].
    + rewrite (bind_ok _ _ _ _ _ Hd). rewrite (IH f' (log GetClones (log GetViews w)) Hv Hc).
      reflexivity.
    + rewrite (bind_err _ _ _ _ _ Hd). reflexivity.
Qed.

Lemma upsert_all_represents fmt Rs : forall f D,
  represents fmt f D -> Forall valid_entry D -> Forall valid_entry Rs ->
  exists f', upsert_all fmt f Rs = Ok f' /\ represents fmt f' (fold_left upsert_entries Rs D) /\
             Forall valid_entry (fold_left upsert_entries Rs D).
Proof.
  induction Rs as [|R Rs IH]; intros f D Hf HD HRs.
  - exists f. auto.
  - inversion HRs as [|? ? HR HRs']; subst. cbn [upsert_all fold_left].
    rewrite (upsert_represents fmt f D R Hf HD HR).
    apply IH; [apply represents_encode | | exact HRs']; auto using upsert_entries_valid.
Qed.

Lemma represents_empty_file fmt : represents fmt (empty_file fmt) [].
Proof. destruct fmt; reflexivity. Qed.

Lemma getYesterdayTraffic_ok d w :
  lookup endpoint_beq EGetViews (failing w) = None ->
  getYesterdayTraffic d w = (Ok (find_day d (views w)), log GetViews w).
Proof. intros H. unfold getYesterdayTraffic, getViews, bind, request. rewrite H. reflexivity. Qed.

Lemma getYesterdayClones_ok d w :
  lookup endpoint_beq EGetClones (failing w) = None ->
  getYesterdayClones d w = (Ok (find_day d (clones w)), log GetClones w).
Proof. intros H. unfold getYesterdayClones, getClones, bind, request. rewrite H. reflexivity. Qed.

Definition day_record (inp : inputs) (w : world) (i : nat) : entry :=
  make_entry (in_day inp i) (stats_of_response (repository w))
    (find_day (in_day inp i) (views w)) (find_day (in_day inp i) (clones w)).

Lemma classify_format_name format fmt : classify format = Some fmt -> format = format_name fmt.
Proof. intros H. destruct (classify_some _ _ H) as [[-> ->]|[-> ->]]; reflexivity. Qed.

Lemma day_record_valid inp w i : valid_date (in_day inp i) = true -> valid_entry (day_record inp w i).
Proof. intros H. exact H. Qed.

Lemma Z_of_nat_ltb n m : (Z.of_nat n <? Z.of_nat m)%Z = (n <? m)%nat.
Proof. destruct (Nat.ltb_spec n m), (Z.ltb_spec (Z.of_nat n) (Z.of_nat m)); lia. Qed.

(** ** Refs on failure; stored JSON that is not an array *)

(** Requests that leave the refs alone. *)
Definition keeps_refs {A} (m : M A) : Prop := forall w, refs (snd (m w)) = refs w.

Lemma keeps_refs_request {A} ep ev (serve : M A) :
  keeps_refs serve -> keeps_refs (request ep ev serve).
Proof.
  intros H w. unfold request. destruct (lookup endpoint_beq ep (failing w)); [reflexivity|].
  rewrite H. reflexivity.
Qed.

Lemma keeps_refs_bind {A B} (m : M A) (k : A -> M B) :
  keeps_refs m -> (forall a, keeps_refs (k a)) -> keeps_refs (bind m k).
Proof.
  intros Hm Hk w. unfold bind. specialize (Hm w).
  destruct (m w) as [[a|e] w']; cbn [snd] in *; [rewrite Hk|]; exact Hm.
Qed.

(** On failure, the refs are as before. *)
Definition safe_refs {A} (m : M A) : Prop :=
  forall w e, fst (m w) = Err e -> refs (snd (m w)) = refs w.

Lemma keeps_safe_refs {A} (m : M A) : keeps_refs m -> safe_refs m.
Proof. intros H w e _. apply H. Qed.

Lemma safe_refs_bind {A B} (m : M A) (k : A -> M B) :
  keeps_refs m -> (forall a, safe_refs (k a)) -> safe_refs (bind m k).
Proof.
  intros Hm Hk w e. unfold bind. specialize (Hm w).
  destruct (m w) as [[a|e'] w']; cbn [snd fst] in *; [|intros; exact Hm].
  intros He. rewrite (Hk a w' e He). exact Hm.
Qed.

Lemma safe_refs_updateRef b n : safe_refs (updateRef b n).
Proof.
  intros w e. unfold updateRef, request.
  destruct (lookup endpoint_beq EUpdateRef (failing w)); [reflexivity|].
  cbn [refs log]. destruct (lookup String.eqb b (refs w)); [discriminate | reflexivity].
Qed.


(** ** [path.join] on plain segments *)

Definition no_slash (s : string) : bool := all_chars (fun c => negb (Ascii.eqb c "/")) s.

Definition simple_segment (s : string) : bool :=
  negb (String.eqb s "") && negb (String.eqb s ".") && negb (String.eqb s "..") && no_slash s.

Lemma split_slash_none a : no_slash a = true -> split_on "/" a = [a].
Proof.
  unfold no_slash. induction a as [|c a IH]; simpl; [reflexivity|].
  intros H. apply andb_prop in H as [H1 H2]. apply negb_true_iff in H1.
  rewrite H1, IH by exact H2. reflexivity.
Qed.

Lemma split_slash_app a s : no_slash a = true -> split_on "/" (a ++ String "/" s) = a :: split_on "/" s.
Proof.
  unfold no_slash. induction a as [|c a IH]; simpl; intros H.
  - reflexivity.
  - apply andb_prop in H as [H1 H2]. apply negb_true_iff in H1.
    rewrite H1, IH by exact H2. reflexivity.
Qed.

Lemma split_join_slash L :
  L <> [] -> Forall (fun l => no_slash l = true) L -> split_on "/" (join "/" L) = L.
Proof.
  induction L as [|x L IH]; intros Hne HL; [congruence|].
  inversion HL as [|? ? Hx HL']; subst.
  destruct L as [|y L].
  - apply split_slash_none, Hx.
  - change (join "/" (x :: y :: L)) with (x ++ String "/" (join "/" (y :: L))).
    rewrite split_slash_app by exact Hx. rewrite IH; [reflexivity|discriminate|exact HL'].
Qed.

Lemma normalize_simple L : forall res,
  Forall (fun l => simple_segment l = true) L -> normalize_segments true res L = (List.rev L ++ res)%list.
Proof.
  induction L as [|x L IH]; intros res HL; [reflexivity|].
  inversion HL as [|? ? Hx HL']; subst. cbn [normalize_segments].
  unfold simple_segment in Hx.
  destruct (String.eqb x "") eqn:E1; [discriminate|].
  destruct (String.eqb x ".") eqn:E2; [discriminate|].
  destruct (String.eqb x "..") eqn:E3; [discriminate|]. cbn [orb].
  rewrite IH by exact HL'. simpl. rewrite <- app_assoc. reflexivity.
Qed.

Lemma fold_join_slash rest : forall a,
  fold_left (fun joined x => joined ++ "/" ++ x) rest a = join "/" (a :: rest).
Proof.
  induction rest as [|x rest IH]; intros a; [reflexivity|].
  cbn [fold_left]. rewrite IH. destruct rest as [|y rest]; [reflexivity|].
  change (join "/" ((a ++ "/" ++ x) :: y :: rest)) with ((a ++ "/" ++ x) ++ "/" ++ join "/" (y :: rest)).
  change (join "/" (a :: x :: y :: rest)) with (a ++ "/" ++ (x ++ "/" ++ join "/" (y :: rest))).
  rewrite !string_app_assoc. reflexivity.
Qed.

Lemma last_is_app c a b : b <> EmptyString -> last_is c (a ++ b) = last_is c b.
Proof.
  intros Hb. induction a as [|x a IH]; [reflexivity|].
  cbn [append]. rewrite <- IH. destruct (a ++ b) eqn:E.
  - destruct a; simpl in E; [congruence | discriminate].
  - reflexivity.
Qed.

Lemma last_is_no_slash s : no_slash s = true -> last_is "/" s = false.
Proof.
  unfold no_slash. induction s as [|c s IH]; [reflexivity|].
  cbn [all_chars]. intros H. apply andb_prop in H as [H1 H2]. apply negb_true_iff in H1.
  destruct s as [|c' s]; [exact H1|]. apply IH, H2.
Qed.

Lemma join_slash_last L x : L <> [] ->
  exists pre, join "/" (L ++ [x]) = pre ++ x.
Proof.
  induction L as [|y L IH]; intros Hne; [congruence|].
  destruct L as [|z L].
  - exists (y ++ "/"). simpl. rewrite <- string_app_assoc. reflexivity.
  - destruct (IH ltac:(discriminate)) as [pre Hpre]. exists (y ++ "/" ++ pre).
    change (join "/" ((y :: z :: L) ++ [x])) with (y ++ "/" ++ join "/" ((z :: L) ++ [x])).
    rewrite Hpre. rewrite !string_app_assoc. reflexivity.
Qed.

Lemma join_slash_head c x0 L : exists r, join "/" (String c x0 :: L) = String c r.
Proof. destruct L; eexists; reflexivity. Qed.

Lemma join_slash_last_no_slash L :
  L <> [] -> Forall (fun l => simple_segment l = true) L -> last_is "/" (join "/" L) = false.
Proof.
  intros Hne HL. destruct (@exists_last _ L Hne) as [L0 [y Hy]]. subst L.
  assert (Hy : simple_segment y = true).
  { rewrite Forall_forall in HL. apply HL, in_or_app. right. left. reflexivity. }
  unfold simple_segment in Hy. apply andb_prop in Hy as [Hy Hyn].
  apply andb_prop in Hy as [Hy _]. apply andb_prop in Hy as [Hy0 _]. apply negb_true_iff in Hy0.
  destruct L0 as [|z L0].
  - simpl. apply last_is_no_slash, Hyn.
  - destruct (join_slash_last (z :: L0) y ltac:(discriminate)) as [pre Hpre]. rewrite Hpre.
    rewrite last_is_app by (intros ->; discriminate). apply last_is_no_slash, Hyn.
Qed.

Lemma path_normalize_simple L :
  L <> [] -> Forall (fun l => simple_segment l = true) L -> path_normalize (join "/" L) = join "/" L.
Proof.
  intros Hne HL.
  assert (Hns : Forall (fun l => no_slash l = true) L).
  { eapply Forall_impl; [|exact HL]. intros l H. unfold simple_segment in H.
    apply andb_prop in H as [_ H]. exact H. }
  pose proof (join_slash_last_no_slash L Hne HL) as Hlast.
  assert (Hbody : join "/" (List.rev (normalize_segments true [] (split_on "/" (join "/" L)))) = join "/" L).
  { rewrite split_join_slash by assumption.
    rewrite normalize_simple by exact HL. rewrite app_nil_r, rev_involutive. reflexivity. }
  destruct L as [|x L']; [congruence|].
  inversion HL as [|? ? Hx _]; subst.
  unfold simple_segment in Hx.
  apply andb_prop in Hx as [Hx Hxs]. apply andb_prop in Hx as [Hx _].
  apply andb_prop in Hx as [Hx0 _]. apply negb_true_iff in Hx0.
  destruct x as [|c x0]; [discriminate|].
  assert (Hc : Ascii.eqb c "/" = false).
  { unfold no_slash in Hxs. cbn in Hxs. apply andb_prop in Hxs as [H _]. apply negb_true_iff, H. }
  destruct (join_slash_head c x0 L') as [r Hr].
  rewrite Hr in *. unfold path_normalize. rewrite Hc. cbn [negb]. rewrite Hlast, Hbody.
  rewrite <- Hr. destruct (String.eqb_spec (join "/" (String c x0 :: L')) "") as [E|_].
  - rewrite Hr in E. discriminate.
  - reflexivity.
Qed.

Lemma join_slash_app L1 L2 : L1 <> [] -> L2 <> [] ->
  join "/" (L1 ++ L2) = join "/" L1 ++ "/" ++ join "/" L2.
Proof.
  intros H1 H2. induction L1 as [|x L1 IH]; [congruence|].
  destruct L1 as [|y L1].
  - simpl. destruct L2; [congruence|reflexivity].
  - change (join "/" ((x :: y :: L1) ++ L2)) with (x ++ "/" ++ join "/" ((y :: L1) ++ L2)).
    rewrite IH by discriminate.
    change (join "/" (x :: y :: L1)) with (x ++ "/" ++ join "/" (y :: L1)).
    rewrite !string_app_assoc. reflexivity.
Qed.

Lemma join_slash_concat LL : Forall (fun L => L <> []) LL ->
  join "/" (map (join "/") LL) = join "/" (concat LL).
Proof.
  induction LL as [|L LL IH]; intros H; [reflexivity|].
  inversion H as [|? ? HL HLL]; subst.
  destruct LL as [|L' LL].
  - simpl. rewrite app_nil_r. reflexivity.
  - inversion HLL as [|? ? HL' _]; subst.
    change (join "/" (map (join "/") (L :: L' :: LL)))
      with (join "/" L ++ "/" ++ join "/" (map (join "/") (L' :: LL))).
    rewrite IH by exact HLL. change (concat (L :: L' :: LL)) with (L ++ concat (L' :: LL))%list.
    rewrite join_slash_app; [reflexivity|exact HL|].
    change (concat (L' :: LL)) with (L' ++ concat LL)%list.
    destruct L'; [congruence|discriminate].
Qed.

Lemma join_simple_nonempty L : L <> [] -> Forall (fun l => simple_segment l = true) L ->
  String.eqb (join "/" L) "" = false.
Proof.
  intros Hne HL. destruct L as [|x L]; [congruence|].
  inversion HL as [|? ? Hx _]; subst. unfold simple_segment in Hx.
  destruct x as [|c x]; [discriminate|]. destruct (join_slash_head c x L) as [r Hr].
  rewrite Hr. reflexivity.
Qed.

Lemma path_join_simple LL : LL <> [] ->
  Forall (fun L => L <> [] /\ Forall (fun l => simple_segment l = true) L) LL ->
  path_join (map (join "/") LL) = join "/" (concat LL).
Proof.
  intros Hne H.
  assert (Hf : filter (fun arg => negb (String.eqb arg "")) (map (join "/") LL) = map (join "/") LL).
  { clear Hne. induction H as [|L LL [HL1 HL2] _ IH]; [reflexivity|].
    cbn [map filter]. rewrite join_simple_nonempty by assumption. cbn [negb]. rewrite IH. reflexivity. }
  assert (Hall : Forall (fun l => simple_segment l = true) (concat LL)).
  { apply Forall_forall. intros x Hx. apply in_concat in Hx as [L [HL Hx]].
    rewrite Forall_forall in H. destruct (H L HL) as [_ HL']. rewrite Forall_forall in HL'. auto. }
  assert (Hcne : concat LL <> []).
  { destruct LL as [|L LL]; [congruence|]. inversion H as [|? ? [HL _] _]; subst.
    destruct L; [congruence|discriminate]. }
  unfold path_join. rewrite Hf. destruct LL as [|L LL]; [congruence|]. cbn [map].
  rewrite fold_join_slash. change (join "/" L :: map (join "/") LL) with (map (join "/") (L :: LL)).
  rewrite join_slash_concat.
  - apply path_normalize_simple; assumption.
  - eapply Forall_impl; [|exact H]. intros ? []; assumption.
Qed.

Lemma simple_stats f : no_slash f = true -> simple_segment ("stats." ++ f) = true.
Proof. intros H. unfold simple_segment, no_slash in *. simpl. exact H. Qed.

Lemma join_one x : join "/" [x] = x.
Proof. reflexivity. Qed.

Lemma path_join_filePath L owner repo f :
  L <> [] -> Forall (fun l => simple_segment l = true) L ->
  simple_segment owner = true -> simple_segment repo = true -> no_slash f = true ->
  path_join [path_join [join "/" L; owner; repo]; "stats." ++ f] =
  join "/" (L ++ [owner; repo; "stats." ++ f]).
Proof.
  intros Hne HL Ho Hr Hf.
  assert (Hs : simple_segment ("stats." ++ f) = true) by (apply simple_stats, Hf).
  assert (E1 : path_join [join "/" L; owner; repo] = join "/" (L ++ [owner; repo])%list).
  { refine (path_join_simple [L; [owner]; [repo]] _ _); [discriminate|].
    repeat constructor; try discriminate; assumption. }
  rewrite E1.
  replace (L ++ [owner; repo; ("stats." ++ f)%string])%list
    with (concat [(L ++ [owner; repo])%list; ["stats." ++ f]])
    by (simpl; rewrite <- app_assoc; reflexivity).
  refine (path_join_simple [(L ++ [owner; repo])%list; ["stats." ++ f]] _ _); [discriminate|].
  repeat constructor; try discriminate; try assumption.
  - destruct L; [congruence|discriminate].
  - apply Forall_app. split; [exact HL|]. repeat constructor; assumption.
Qed.

(** ** The paths of the older version *)

Lemma old_getInsightsFile_depends inp b w1 w2 :
  failing w1 = failing w2 ->
  file_at w1 (old_read_path inp) b = file_at w2 (old_read_path inp) b ->
  fst (old_getInsightsFile inp b w1) = fst (old_getInsightsFile inp b w2).
Proof.
  intros Hf Hfile. unfold old_getInsightsFile, try_catch, bind, getContent, request.
  rewrite Hf. destruct (lookup endpoint_beq EGetContent (failing w2)).
  - cbv [ret throw]. destruct (String.eqb (old_format inp) "json"); [reflexivity|].
    destruct (String.eqb (old_format inp) "csv"); reflexivity.
  - change (file_at (log (GetContent (old_read_path inp) b) w1) (old_read_path inp) b)
      with (file_at w1 (old_read_path inp) b).
    change (file_at (log (GetContent (old_read_path inp) b) w2) (old_read_path inp) b)
      with (file_at w2 (old_read_path inp) b).
    rewrite Hfile. destruct (file_at w2 (old_read_path inp) b) as [c|].
    + cbv [ret throw lift]. destruct (String.eqb (old_format inp) "json").
      * destruct (JSON_parse c) as [v|]; [|reflexivity].
        destruct (json_length v); reflexivity.
      * destruct (String.eqb (old_format inp) "csv"); [reflexivity|].
        destruct (String.eqb (old_format inp) "json"); [reflexivity|]. destruct (String.eqb (old_format inp) "csv"); reflexivity.
    + cbv [not_found throw ret]. destruct (String.eqb (old_format inp) "json"); [reflexivity|].
      destruct (String.eqb (old_format inp) "csv"); reflexivity.
Qed.

Lemma path_normalize_dot L :
  L <> [] -> Forall (fun l => simple_segment l = true) L ->
  path_normalize ("./" ++ join "/" L) = join "/" L.
Proof.
  intros Hne HL.
  assert (Hns : Forall (fun l => no_slash l = true) L).
  { eapply Forall_impl; [|exact HL]. intros l H. unfold simple_segment in H.
    apply andb_prop in H as [_ H]. exact H. }
  assert (Hsplit : split_on "/" ("./" ++ join "/" L) = "." :: L).
  { change ("./" ++ join "/" L) with ("." ++ String "/" (join "/" L)).
    rewrite split_slash_app by reflexivity. rewrite split_join_slash by assumption. reflexivity. }
  assert (Hlast : last_is "/" ("./" ++ join "/" L) = false).
  { change ("./" ++ join "/" L) with ("./" ++ join "/" L).
    rewrite last_is_app.
    - apply join_slash_last_no_slash; assumption.
    - pose proof (join_simple_nonempty L Hne HL) as E. intros E'. rewrite E' in E. discriminate. }
  change ("./" ++ join "/" L) with (String "." (String "/" (join "/" L))) in *.
  unfold path_normalize. rewrite Hlast, Hsplit. cbn [Ascii.eqb negb normalize_segments String.eqb orb].
  rewrite normalize_simple by exact HL. rewrite app_nil_r, rev_involutive.
  rewrite join_simple_nonempty by assumption. reflexivity.
Qed.

Lemma old_paths_no_directory inp :
  in_directory inp = "" ->
  simple_segment (in_owner inp) = true -> simple_segment (in_repository inp) = true ->
  no_slash (old_format inp) = true ->
  old_read_path inp = join "/" [in_owner inp; in_repository inp; "stats." ++ old_format inp] /\
  old_write_path inp = join "/" ["data"; in_owner inp; in_repository inp; "stats." ++ old_format inp].
Proof.
  intros Hd Ho Hr Hf. pose proof (simple_stats _ Hf) as Hs.
  unfold old_read_path, old_write_path. rewrite Hd.
  set (o := in_owner inp) in *. set (r := in_repository inp) in *.
  set (f := "stats." ++ old_format inp) in *. split.
  - change (path_join [""; o; r]) with (path_join (map (join "/") [[o]; [r]])).
    rewrite path_join_simple by (try discriminate; repeat constructor; try discriminate; assumption).
    change (path_join [join "/" (concat [[o]; [r]]); f])
      with (path_join (map (join "/") [[o; r]; [f]])).
    rewrite path_join_simple by (try discriminate; repeat constructor; try discriminate; assumption).
    reflexivity.
  - assert (E : path_join [or_default "" "./data"; o; r] = join "/" ["data"; o; r]).
    { unfold path_join. cbn [or_default String.eqb].
      cbn [filter]. cbn [String.eqb negb].
      assert (Eo : String.eqb o "" = false)
        by exact (join_simple_nonempty [o] ltac:(discriminate) ltac:(repeat constructor; assumption)).
      assert (Er : String.eqb r "" = false)
        by exact (join_simple_nonempty [r] ltac:(discriminate) ltac:(repeat constructor; assumption)).
      rewrite Eo, Er.
      cbn [negb]. rewrite fold_join_slash.
      change (join "/" ["./data"; o; r]) with ("./" ++ join "/" ["data"; o; r]).
      apply path_normalize_dot; [discriminate|]. repeat constructor; assumption. }
    rewrite E.
    change (path_join [join "/" ["data"; o; r]; f]) with (path_join (map (join "/") [["data"; o; r]; [f]])).
    rewrite path_join_simple by (try discriminate; repeat constructor; try discriminate; assumption).
    reflexivity.
Qed.

(** ** The refs a run can move; totals; letter case *)

(** A computation that moves or creates no reference but [b]. *)
Definition touches_only {A} (b : string) (m : M A) : Prop :=
  forall w b', b' <> b -> lookup String.eqb b' (refs (snd (m w))) = lookup String.eqb b' (refs w).

Lemma touches_only_keeps {A} b (m : M A) : keeps_refs m -> touches_only b m.
Proof. intros H w b' _. rewrite H. reflexivity. Qed.

Lemma touches_only_bind {A B} b (m : M A) (k : A -> M B) :
  touches_only b m -> (forall a, touches_only b (k a)) -> touches_only b (bind m k).
Proof.
  intros Hm Hk w b' Hb. unfold bind. specialize (Hm w b' Hb).
  destruct (m w) as [[a|e] w']; cbn [snd] in *; [rewrite Hk|]; assumption.
Qed.

Lemma touches_only_try_catch {A} b (m : M A) (h : error -> M A) :
  touches_only b m -> (forall e, touches_only b (h e)) -> touches_only b (try_catch m h).
Proof.
  intros Hm Hh w b' Hb. unfold try_catch. specialize (Hm w b' Hb).
  destruct (m w) as [[a|e] w']; cbn [snd] in *; [|rewrite Hh]; assumption.
Qed.

Lemma keeps_refs_ret {A} (a : A) : keeps_refs (ret a).
Proof. intros w. reflexivity. Qed.

Lemma keeps_refs_throw {A} e : keeps_refs (@throw A e).
Proof. intros w. reflexivity. Qed.

Lemma keeps_refs_lift {A} (r : result A) : keeps_refs (lift r).
Proof. intros w. reflexivity. Qed.

Lemma keeps_refs_setFailed e : keeps_refs (setFailed e).
Proof. intros w. reflexivity. Qed.

Ltac keeps_request :=
  apply keeps_refs_request; intros w0; unfold ret, throw, not_found;
  repeat match goal with |- context [match ?x with _ => _ end] => destruct x end; reflexivity.

Lemma keeps_refs_graphql : keeps_refs graphql.
Proof. unfold graphql. keeps_request. Qed.

Lemma keeps_refs_getViews : keeps_refs getViews.
Proof. unfold getViews. keeps_request. Qed.

Lemma keeps_refs_getClones : keeps_refs getClones.
Proof. unfold getClones. keeps_request. Qed.

Lemma keeps_refs_getRef b : keeps_refs (getRef b).
Proof. unfold getRef. keeps_request. Qed.

Lemma keeps_refs_getContent p b : keeps_refs (getContent p b).
Proof. unfold getContent. keeps_request. Qed.

Lemma keeps_refs_getCommit c : keeps_refs (getCommit c).
Proof. unfold getCommit. keeps_request. Qed.

Lemma keeps_refs_createBlob c : keeps_refs (createBlob c).
Proof. unfold createBlob. keeps_request. Qed.

Lemma keeps_refs_createTree t p b : keeps_refs (createTree t p b).
Proof. unfold createTree. keeps_request. Qed.

Lemma keeps_refs_createCommit t ps : keeps_refs (createCommit t ps).
Proof. unfold createCommit. keeps_request. Qed.

Lemma touches_only_createRef b n : touches_only b (createRef b n).
Proof.
  intros w b' Hb. unfold createRef, request.
  destruct (lookup endpoint_beq ECreateRef (failing w)); [reflexivity|].
  cbn [refs log]. destruct (lookup String.eqb b (refs w)); [reflexivity|].
  cbn [snd refs set_refs lookup]. destruct (String.eqb_spec b' b); [congruence|reflexivity].
Qed.

Lemma touches_only_updateRef b n : touches_only b (updateRef b n).
Proof.
  intros w b' Hb. unfold updateRef, request.
  destruct (lookup endpoint_beq EUpdateRef (failing w)); [reflexivity|].
  cbn [refs log]. destruct (lookup String.eqb b (refs w)); [|reflexivity].
  cbn [snd refs set_refs]. apply lookup_update_other. exact Hb.
Qed.

Create HintDb touches.

#[local] Hint Resolve touches_only_bind touches_only_try_catch touches_only_createRef
  touches_only_updateRef : touches.

#[local] Hint Extern 1 (touches_only _ _) => apply touches_only_keeps : touches.

#[local] Hint Resolve keeps_refs_ret keeps_refs_throw keeps_refs_lift keeps_refs_setFailed
  keeps_refs_graphql keeps_refs_getViews keeps_refs_getClones keeps_refs_getRef
  keeps_refs_getContent keeps_refs_getCommit keeps_refs_createBlob keeps_refs_createTree
  keeps_refs_createCommit keeps_refs_bind : touches.

Lemma touches_only_backfill_loop b day s fmt i : forall f, touches_only b (backfill_loop day s fmt i f).
Proof.
  induction i as [|[|j] IH]; intros f; cbn [backfill_loop].
  - apply touches_only_keeps, keeps_refs_throw.
  - apply touches_only_keeps, keeps_refs_ret.
  - unfold getYesterdayTraffic, getYesterdayClones.
    repeat (apply touches_only_bind; intros; [| try apply IH]); try apply IH;
      apply touches_only_keeps; eauto 6 with touches.
Qed.

Lemma touches_only_commitFileToBranch b p c : touches_only b (commitFileToBranch b p c).
Proof.
  unfold commitFileToBranch.
  repeat (apply touches_only_bind; [|intros]); try apply touches_only_updateRef;
    apply touches_only_keeps; auto with touches.
Qed.

Lemma touches_only_ensureBranchExists b : touches_only b (ensureBranchExists b).
Proof.
  unfold ensureBranchExists. apply touches_only_try_catch.
  - apply touches_only_keeps; eauto with touches.
  - intros [st| | | | | |]; try (apply touches_only_keeps, keeps_refs_throw).
    destruct (Z.eqb st 404); [|apply touches_only_keeps, keeps_refs_throw].
    apply touches_only_bind; [apply touches_only_keeps, keeps_refs_getRef|].
    intros. apply touches_only_createRef.
Qed.

Lemma touches_only_getInsightsFile b' b r o p f : touches_only b' (getInsightsFile b r o p f).
Proof.
  unfold getInsightsFile. apply touches_only_keeps. intros w. unfold try_catch.
  pose proof (keeps_refs_getContent (filePath r o p f) b w) as H.
  unfold bind. destruct (getContent (filePath r o p f) b w) as [[c|e] w'] eqn:E; cbn [snd] in *.
  - cbv [ret throw lift]. destruct (String.eqb f "json").
    + destruct (JSON_parse c) as [v|]; [destruct (json_length v)|]; exact H.
    + destruct (String.eqb f "csv"); exact H.
  - cbv [ret throw]. destruct (String.eqb f "json"); [|destruct (String.eqb f "csv")]; exact H.
Qed.

Lemma touches_only_getRepoStats b : touches_only b getRepoStats.
Proof. unfold getRepoStats. apply touches_only_keeps; eauto with touches. Qed.

Lemma commitFileToBranch_failing_ok b p c w h cm t :
  failing w = [] ->
  lookup String.eqb b (refs w) = Some h ->
  lookup Nat.eqb h (git_commits w) = Some cm ->
  lookup Nat.eqb (commit_tree cm) (git_trees w) = Some t ->
  failing (snd (commitFileToBranch b p c w)) = [].
Proof.
  intros Hf Hb Hh Ht. rewrite (commitFileToBranch_ok b p c w h cm t Hf Hb Hh Ht). exact Hf.
Qed.

Definition is_user (u : option string) : bool := match u with Some _ => true | None => false end.

Lemma nodup_length_le (l : list string) : (length (nodup string_dec l) <= length l)%nat.
Proof.
  induction l as [|x l IH]; [reflexivity|]. cbn [nodup].
  destruct (in_dec string_dec x l); cbn [length]; lia.
Qed.

Lemma logins_length us :
  length (flat_map (fun u => match u with Some l => [l] | None => [] end) us) = length (filter is_user us).
Proof. induction us as [|[u|] us IH]; cbn; congruence. Qed.

Lemma lower_char_idem c : lower_char (lower_char c) = lower_char c.
Proof.
  destruct c as [[] [] [] [] [] [] [] []]; reflexivity.
Qed.

Lemma toLowerCase_idem s : toLowerCase (toLowerCase s) = toLowerCase s.
Proof. induction s as [|c s IH]; cbn [toLowerCase]; [reflexivity|]. rewrite lower_char_idem, IH. reflexivity. Qed.

Lemma toLowerCase_or_default f :
  toLowerCase (or_default (toLowerCase f) "json") = toLowerCase (or_default f "json").
Proof. destruct f as [|c f]; [reflexivity|]. unfold or_default. cbn [toLowerCase String.eqb]. exact (toLowerCase_idem (String c f)). Qed.

(** ** Sample worlds *)

Definition two_branch_world : world :=
  sample_world [("main", 1%nat); ("repository-insights", 1%nat)] [].

Lemma ids_below_two_branch_world : ids_below two_branch_world.
Proof. unfold ids_below. cbn. repeat constructor; cbn; lia. Qed.

(** The branch [repository-insights] holding [c] at [.insights/o/r/stats.json]. *)
Definition stored_world (c : string) : world :=
  mkWorld [("repository-insights", 1%nat)] [(1%nat, mkCommit 0 [])]
    [(0%nat, [(".insights/o/r/stats.json", 5%nat)])] [(5%nat, c)] 6
    (mkRepositoryInfo 7 40 [Some "ann"]) [] [] [] [].

(** * The claims *)

(** C1: upserting the same record twice gives the file of one upsert.
    For a file holding the records [D] (either format, dates as
    [toISOString] prints them), [generateFileContent] with the record [R]
    succeeds with a file [f1]; upserting [R] into [f1] again returns [f1]
    unchanged, and [f1] holds [upsert_entries D R]. *)
Theorem upsert_idempotent fmt f D R :
  represents fmt f D -> Forall valid_entry D -> valid_entry R ->
  exists f1, upsert fmt f R = Ok f1 /\ upsert fmt f1 R = Ok f1 /\ represents fmt f1 (upsert_entries D R).
Proof.
  intros Hf HD HR. exists (encode fmt (upsert_entries D R)).
  pose proof (upsert_entries_valid D R HD HR) as HD1.
  split; [apply (upsert_represents fmt f D R Hf HD HR)|]. split.
  - rewrite (upsert_represents fmt _ (upsert_entries D R) R (represents_encode fmt _ HD1) HD1 HR).
    rewrite upsert_entries_idem. reflexivity.
  - apply represents_encode, HD1.
Qed.

Lemma upsert_idempotent_witness :
  exists f1, upsert Csv (csv_header_line ++ LFs) (sample_entry "2024-01-01" 10) = Ok f1 /\
             upsert Csv f1 (sample_entry "2024-01-01" 10) = Ok f1 /\
             represents Csv f1 [sample_entry "2024-01-01" 10].
Proof.
  apply (upsert_idempotent Csv (csv_header_line ++ LFs) [] (sample_entry "2024-01-01" 10));
    [reflexivity | constructor | reflexivity].
Defined.

(** C2: dates stay unique.  From any file holding records with distinct
    valid dates (the empty fallbacks of [getInsightsFile] included), any
    sequence of upserts succeeds, and the result holds the records
    [fold_left upsert_entries Rs D], whose dates are again distinct. *)
Theorem upsert_all_unique_dates fmt Rs : forall f D,
  represents fmt f D -> Forall valid_entry D -> NoDup (map date D) -> Forall valid_entry Rs ->
  exists f', upsert_all fmt f Rs = Ok f' /\
             represents fmt f' (fold_left upsert_entries Rs D) /\
             NoDup (map date (fold_left upsert_entries Rs D)) /\
             Forall valid_entry (fold_left upsert_entries Rs D).
Proof.
  induction Rs as [|R Rs IH]; intros f D Hf HD Hnd HRs.
  - exists f. auto.
  - inversion HRs as [|? ? HR HRs']; subst. cbn [upsert_all fold_left].
    rewrite (upsert_represents fmt f D R Hf HD HR).
    apply IH; [apply represents_encode | | apply upsert_entries_nodup | exact HRs'];
      auto using upsert_entries_valid.
Qed.

Lemma upsert_all_unique_dates_witness :
  exists f', upsert_all Json (JSON_stringify (JArr []))
               [sample_entry "2024-01-01" 10; sample_entry "2024-01-02" 12;
                sample_entry "2024-01-01" 15] = Ok f' /\
             represents Json f' [sample_entry "2024-01-01" 15; sample_entry "2024-01-02" 12] /\
             NoDup ["2024-01-01"; "2024-01-02"] /\
             Forall valid_entry [sample_entry "2024-01-01" 15; sample_entry "2024-01-02" 12].
Proof.
  apply (upsert_all_unique_dates Json
           [sample_entry "2024-01-01" 10; sample_entry "2024-01-02" 12; sample_entry "2024-01-01" 15]
           (JSON_stringify (JArr [])) []); [reflexivity | constructor | constructor |].
  repeat constructor.
Defined.

(** C3: the backfill step is all-or-nothing.  With [insightsCount = k],
    it runs the loop body (fetch that day's metrics, then upsert) exactly
    for the 13 offsets 14, 13, ..., 2 in this order when [k < 14], and
    does nothing at all (no request, file unchanged) when [k >= 14]. *)
Theorem backfill_threshold day s fmt k f w :
  backfill day s fmt (Some k) f w =
  if (k <? 14)%Z
  then foldM (backfill_day day s fmt) f [14; 13; 12; 11; 10; 9; 8; 7; 6; 5; 4; 3; 2]%nat w
  else (Ok f, w).
Proof.
  unfold backfill, lt14. destruct (k <? 14)%Z; [|reflexivity].
  rewrite backfill_loop_foldM by lia. reflexivity.
Qed.

(** C4 (as the code behaves): [getInsightsFile] does not recover only
    from "not found".  Whatever status the content request fails with
    (401, 403, 500, ...), and when the stored JSON text is malformed from
    its first token (empty, [oops], [{oops], ...), it returns the
    empty-dataset fallback with [insightsCount = 0] instead of raising. *)
Theorem getInsightsFile_recovers_every_error branch rootDir owner repo format fmt w :
  classify format = Some fmt ->
  (exists status, lookup endpoint_beq EGetContent (failing w) = Some status) \/
  (format = "json" /\ lookup endpoint_beq EGetContent (failing w) = None /\
   exists c, file_at w (filePath rootDir owner repo format) branch = Some c /\ json_bad_start c = true) ->
  fst (getInsightsFile branch rootDir owner repo format w) = Ok (empty_file fmt, Some 0%Z).
Proof.
  intros Hc Hg. erewrite getInsightsFile_fallback; [reflexivity | exact Hc |].
  destruct Hg as [[st Hst] | [Hj [Hf [c [Hfile Hp]]]]].
  - left. exists (HttpError st). unfold getContent. apply request_fail. exact Hst.
  - right. split; [exact Hj|]. exists c.
    split; [apply getContent_found; assumption | apply json_bad_start_parse, Hp].
Qed.

Lemma getInsightsFile_recovers_every_error_witness :
  let w := sample_world [("main", 1%nat); ("repository-insights", 1%nat)] [(EGetContent, 403%Z)] in
  fst (getInsightsFile "repository-insights" ".insights" "o" "r" "json" w) = Ok ("[]", Some 0%Z) /\
  fst (getInsightsFile "repository-insights" ".insights" "o" "r" "json" (stored_world "{oops"))
    = Ok ("[]", Some 0%Z).
Proof.
  split.
  - apply (getInsightsFile_recovers_every_error "repository-insights" ".insights" "o" "r"
             "json" Json); [reflexivity|].
    left. exists 403%Z. reflexivity.
  - apply (getInsightsFile_recovers_every_error "repository-insights" ".insights" "o" "r"
             "json" Json (stored_world "{oops")); [reflexivity|].
    right. split; [reflexivity|]. split; [reflexivity|]. exists "{oops". split; reflexivity.
Defined.

(** C5: a missing file loads as the empty dataset.  When the path does
    not exist on the branch, [getInsightsFile] succeeds (only the request
    is recorded) with the empty JSON array ["[]"], or the CSV header line
    followed by a newline, and [insightsCount = 0]; these texts hold no
    records. *)
Theorem getInsightsFile_missing_file branch rootDir owner repo format fmt w :
  classify format = Some fmt ->
  lookup endpoint_beq EGetContent (failing w) = None ->
  file_at w (filePath rootDir owner repo format) branch = None ->
  getInsightsFile branch rootDir owner repo format w =
    (Ok (empty_file fmt, Some 0%Z), log (GetContent (filePath rootDir owner repo format) branch) w) /\
  match fmt with
  | Json => empty_file Json = "[]" /\ JSON_parse (empty_file Json) = Some (JArr [])
  | Csv => csv_lines (empty_file Csv) = [csv_header_line]
  end.
Proof.
  intros Hc Hf Hn. split.
  - apply getInsightsFile_fallback with (1 := Hc). left. eexists.
    apply getContent_missing; assumption.
  - destruct fmt; [split|]; reflexivity.
Qed.

Lemma getInsightsFile_missing_file_witness :
  let w := sample_world [("main", 1%nat); ("repository-insights", 1%nat)] [] in
  fst (getInsightsFile "repository-insights" ".insights" "o" "r" "csv" w)
    = Ok (csv_header_line ++ LFs, Some 0%Z).
Proof.
  intros w.
  destruct (getInsightsFile_missing_file "repository-insights" ".insights" "o" "r" "csv" Csv w)
    as [H _]; [reflexivity | reflexivity | reflexivity |].
  rewrite H. reflexivity.
Defined.

(** C6: where the upsert puts the record.  If [D] has a record with
    [R]'s date, [R] replaces the first such record at its index, every
    other position and the length are unchanged; if no record has [R]'s
    date, [R] is appended after the records of [D]. *)
Theorem upsert_placement fmt f D R :
  represents fmt f D -> Forall valid_entry D -> valid_entry R ->
  upsert fmt f R = Ok (encode fmt (upsert_entries D R)) /\
  (forall i x, nth_error D i = Some x -> date x = date R ->
     (forall j y, (j < i)%nat -> nth_error D j = Some y -> date y <> date R) ->
     length (upsert_entries D R) = length D /\
     nth_error (upsert_entries D R) i = Some R /\
     (forall j, j <> i -> nth_error (upsert_entries D R) j = nth_error D j)) /\
  ((forall x, In x D -> date x <> date R) -> upsert_entries D R = (D ++ [R])%list).
Proof.
  intros Hf HD HR. split; [exact (upsert_represents fmt f D R Hf HD HR)|]. split.
  - intros i x Hx Hd Hbefore.
    assert (Hi : findIndex (fun e => String.eqb (date e) (date R)) D = Some i).
    { apply (findIndex_first _ _ _ x Hx); [apply String.eqb_eq, Hd|].
      intros j y Hj Hy. apply String.eqb_neq. exact (Hbefore j y Hj Hy). }
    assert (Hlt : (i < length D)%nat) by (apply nth_error_Some; congruence).
    unfold upsert_entries. rewrite Hi. split; [apply length_set_nth|]. split.
    + rewrite nth_error_set_nth by exact Hlt. rewrite Nat.eqb_refl. reflexivity.
    + intros j Hj. rewrite nth_error_set_nth by exact Hlt.
      apply Nat.eqb_neq in Hj. rewrite Hj. reflexivity.
  - intros Hnone. unfold upsert_entries.
    destruct (findIndex (fun e => String.eqb (date e) (date R)) D) as [i|] eqn:Hi; [|reflexivity].
    destruct (findIndex_some _ _ _ Hi) as [[x [Hx Hp]] _].
    apply String.eqb_eq in Hp. exfalso. apply (Hnone x); [eapply nth_error_In; exact Hx | exact Hp].
Qed.

Lemma upsert_placement_witness :
  upsert Json (encode Json [sample_entry "2024-01-01" 10; sample_entry "2024-01-02" 12])
    (sample_entry "2024-01-01" 15)
  = Ok (encode Json [sample_entry "2024-01-01" 15; sample_entry "2024-01-02" 12]).
Proof.
  apply (upsert_placement Json _ [sample_entry "2024-01-01" 10; sample_entry "2024-01-02" 12]
           (sample_entry "2024-01-01" 15)); [| repeat constructor | reflexivity].
  apply represents_encode. repeat constructor.
Defined.

(** C7: the round trip through a file.  The text [encode fmt D]
    that [generateFileContent] writes for valid records [D] holds exactly
    [D] (no other list of valid records), and [getInsightsFile] reading it
    returns it unchanged with [insightsCount = length D]. *)
Theorem encode_round_trip fmt D :
  Forall valid_entry D ->
  represents fmt (encode fmt D) D /\
  (forall D', Forall valid_entry D' -> represents fmt (encode fmt D) D' -> D' = D) /\
  (forall w branch rootDir owner repo,
     lookup endpoint_beq EGetContent (failing w) = None ->
     file_at w (filePath rootDir owner repo (format_name fmt)) branch = Some (encode fmt D) ->
     fst (getInsightsFile branch rootDir owner repo (format_name fmt) w) =
       Ok (encode fmt D, Some (Z.of_nat (length D)))).
Proof.
  intros HD. split; [apply represents_encode, HD|]. split.
  - intros D' HD' H. apply (represents_unique fmt (encode fmt D)); auto. apply represents_encode, HD.
  - intros w branch rootDir owner repo Hf Hfile.
    rewrite (getInsightsFile_encoded branch rootDir owner repo fmt D w HD Hf Hfile). reflexivity.
Qed.

Lemma encode_round_trip_witness :
  represents Csv (encode Csv [sample_entry "2024-01-01" 10; sample_entry "2024-01-02" 12])
    [sample_entry "2024-01-01" 10; sample_entry "2024-01-02" 12].
Proof.
  apply (encode_round_trip Csv [sample_entry "2024-01-01" 10; sample_entry "2024-01-02" 12]).
  repeat constructor.
Defined.

(** C8 (amended): a run with a format other than json/csv (after
    lower-casing) fails with the unsupported-format error raised while
    loading the dataset, after the branch has been provisioned: the
    branch is created from [main] when it was missing; no git object is
    created and no existing ref is moved. *)
Theorem run_unsupported_format inp w main :
  classify (toLowerCase (or_default (in_format inp) "json")) = None ->
  failing w = [] ->
  lookup String.eqb "main" (refs w) = Some main ->
  let branch := or_default (in_branch inp) "repository-insights" in
  let path := filePath (or_default (in_directory inp) ".insights") (in_owner inp) (in_repository inp)
                (toLowerCase (or_default (in_format inp) "json")) in
  let w' := snd (run inp w) in
  fst (run inp w) = Ok tt /\
  trace w' = (trace w ++ [Graphql; GetRef branch] ++
              match lookup String.eqb branch (refs w) with
              | Some _ => []
              | None => [GetRef "main"; CreateRef branch main]
              end ++ [GetContent path branch; SetFailed UnsupportedFormat])%list /\
  refs w' = match lookup String.eqb branch (refs w) with
            | Some _ => refs w
            | None => (branch, main) :: refs w
            end /\
  git_commits w' = git_commits w /\ git_trees w' = git_trees w /\ git_blobs w' = git_blobs w.
Proof.
  intros Hc Hf Hm branch path w'.
  assert (HfR : lookup endpoint_beq EGetRef (failing w) = None) by (rewrite Hf; reflexivity).
  assert (HfC : lookup endpoint_beq ECreateRef (failing w) = None) by (rewrite Hf; reflexivity).
  assert (HfG : lookup endpoint_beq EGraphql (failing w) = None) by (rewrite Hf; reflexivity).
  assert (Hrun : forall w2, ensureBranchExists branch (log Graphql w) = (Ok tt, w2) ->
            run inp w = (Ok tt, log (SetFailed UnsupportedFormat) (log (GetContent path branch) w2))).
  { intros w2 He. unfold run. erewrite try_catch_err; [reflexivity|].
    unfold run_body. cbv zeta.
    erewrite bind_ok by (apply getRepoStats_ok, HfG).
    erewrite bind_ok by exact He.
    erewrite bind_err by (apply getInsightsFile_unsupported, Hc). reflexivity. }
  subst w'. destruct (lookup String.eqb branch (refs w)) as [h|] eqn:Hb.
  - rewrite (Hrun _ (ensure_present branch (log Graphql w) h HfR Hb)).
    simpl. rewrite <- !app_assoc. repeat split; reflexivity.
  - rewrite (Hrun _ (ensure_absent branch (log Graphql w) main HfR HfC Hb Hm)).
    simpl. rewrite <- !app_assoc. repeat split; reflexivity.
Qed.

Lemma run_unsupported_format_witness :
  let w := sample_world [("main", 1%nat)] [] in
  refs (snd (run (sample_inputs "xml") w)) = [("repository-insights", 1%nat); ("main", 1%nat)].
Proof.
  intros w. apply (run_unsupported_format (sample_inputs "xml") w 1%nat); reflexivity.
Defined.

(** C8, counterexample: with format ["xml"] and no branch yet, the run
    creates the branch before failing with the unsupported-format error. *)
Lemma run_unsupported_format_creates_branch :
  let w := sample_world [("main", 1%nat)] [] in
  let w' := snd (run (sample_inputs "xml") w) in
  lookup String.eqb "repository-insights" (refs w) = None /\
  lookup String.eqb "repository-insights" (refs w') = Some 1%nat /\
  In (CreateRef "repository-insights" 1) (trace w') /\
  last (trace w') Graphql = SetFailed UnsupportedFormat.
Proof. vm_compute. repeat split; auto 10. Qed.

(** C9: branch provisioning.  With [main] present and no failing
    request, [ensureBranchExists] succeeds; a missing branch is created
    at the head commit of [main], an existing one keeps its head; no
    other ref and no git object changes, and a second call changes no
    ref. *)
Theorem ensureBranchExists_provisions b w main :
  failing w = [] ->
  lookup String.eqb "main" (refs w) = Some main ->
  let w1 := snd (ensureBranchExists b w) in
  fst (ensureBranchExists b w) = Ok tt /\
  lookup String.eqb b (refs w1) =
    Some (match lookup String.eqb b (refs w) with Some h => h | None => main end) /\
  (forall b', b' <> b -> lookup String.eqb b' (refs w1) = lookup String.eqb b' (refs w)) /\
  (lookup String.eqb b (refs w) <> None -> refs w1 = refs w) /\
  git_commits w1 = git_commits w /\ git_trees w1 = git_trees w /\ git_blobs w1 = git_blobs w /\
  fst (ensureBranchExists b w1) = Ok tt /\ refs (snd (ensureBranchExists b w1)) = refs w1.
Proof.
  intros Hf Hm w1.
  assert (HfR : lookup endpoint_beq EGetRef (failing w) = None) by (rewrite Hf; reflexivity).
  assert (HfC : lookup endpoint_beq ECreateRef (failing w) = None) by (rewrite Hf; reflexivity).
  destruct (lookup String.eqb b (refs w)) as [h|] eqn:Hb.
  - subst w1. rewrite (ensure_present b w h HfR Hb). cbn [fst snd].
    rewrite (ensure_present b (log (GetRef b) w) h HfR Hb).
    repeat split; try reflexivity. exact Hb.
  - subst w1. rewrite (ensure_absent b w main HfR HfC Hb Hm). cbn [fst snd].
    assert (Hbb : lookup String.eqb b ((b, main) :: refs w) = Some main)
      by (simpl; rewrite String.eqb_refl; reflexivity).
    rewrite (ensure_present b (set_refs ((b, main) :: refs w)
      (log (CreateRef b main) (log (GetRef "main") (log (GetRef b) w)))) main HfR Hbb).
    repeat split; try reflexivity.
    + exact Hbb.
    + intros b' Hne. simpl. apply String.eqb_neq in Hne. rewrite Hne. reflexivity.
    + intros Hc. congruence.
Qed.

Lemma ensureBranchExists_provisions_witness :
  let w := sample_world [("main", 1%nat)] [] in
  failing w = [] /\ lookup String.eqb "main" (refs w) = Some 1%nat /\
  lookup String.eqb "repository-insights" (refs (snd (ensureBranchExists "repository-insights" w)))
    = Some 1%nat.
Proof.
  intros w. split; [reflexivity|]. split; [reflexivity|].
  apply (ensureBranchExists_provisions "repository-insights" w 1%nat); reflexivity.
Defined.

(** C10: backfilled records reuse the totals of the run.  A run sends
    the GraphQL query for the totals exactly once; the 13 records the
    backfill loop upserts all carry those totals, only their traffic and
    clone counts are looked up per date, and the loop sends only views and
    clones requests. *)
Theorem backfill_reuses_totals day s fmt f w :
  lookup endpoint_beq EGetViews (failing w) = None ->
  lookup endpoint_beq EGetClones (failing w) = None ->
  let recs := map (fun i => make_entry (day i) s (find_day (day i) (views w))
                              (find_day (day i) (clones w))) (offsets 14) in
  (forall inp w0, graphql_calls (snd (run inp w0)) = S (graphql_calls w0)) /\
  fst (backfill_loop day s fmt 14 f w) = upsert_all fmt f recs /\
  length recs = 13%nat /\
  Forall (fun r => stargazers r = stargazerCount s /\ commits r = commitCount s /\
                   contributors r = contributorsCount s) recs /\
  (exists evs, trace (snd (backfill_loop day s fmt 14 f w)) = (trace w ++ evs)%list /\
               Forall (fun ev => ev = GetViews \/ ev = GetClones) evs).
Proof.
  intros Hv Hc recs. split; [exact run_graphql_once|]. rewrite backfill_loop_foldM by lia.
  destruct (foldM_days day s fmt (offsets 14) f w Hv Hc) as [H1 H2].
  split; [exact H1|]. split; [reflexivity|]. split; [|exact H2].
  subst recs. apply Forall_forall. intros r Hr. apply in_map_iff in Hr as [i [<- _]].
  repeat split.
Qed.

Lemma backfill_reuses_totals_witness :
  let w := sample_world [("main", 1%nat)] [] in
  fst (backfill_loop (in_day (sample_inputs "csv")) (mkStats 7 40 2) Csv 14 (csv_header_line ++ LFs) w)
  = upsert_all Csv (csv_header_line ++ LFs)
      (map (fun i => make_entry (in_day (sample_inputs "csv") i) (mkStats 7 40 2)
                       (find_day (in_day (sample_inputs "csv") i) (views w))
                       (find_day (in_day (sample_inputs "csv") i) (clones w))) (offsets 14)).
Proof.
  intros w. apply (backfill_reuses_totals (in_day (sample_inputs "csv")) (mkStats 7 40 2) Csv
                     (csv_header_line ++ LFs) w); reflexivity.
Defined.

(** * Further properties of the code *)

(** X1: For a root directory made of plain path segments and plain owner, repository
    and format names, the path Node's [path.join] builds in [getInsightsFile]
    and [commitFileToBranch] is [rootDir/owner/repository/stats.format]. *)
Theorem filePath_path_join L owner repo format :
  L <> [] -> Forall (fun l => simple_segment l = true) L ->
  simple_segment owner = true -> simple_segment repo = true -> no_slash format = true ->
  path_join [path_join [join "/" L; owner; repo]; "stats." ++ format] =
  filePath (join "/" L) owner repo format.
Proof.
  intros Hne HL Ho Hr Hf. rewrite path_join_filePath by assumption.
  unfold filePath. rewrite join_slash_app by (assumption || discriminate). reflexivity.
Qed.

Lemma filePath_path_join_witness :
  path_join [path_join [join "/" [".insights"]; "o"; "r"]; "stats." ++ "json"] =
  filePath (join "/" [".insights"]) "o" "r" "json".
Proof.
  apply filePath_path_join; try reflexivity; [discriminate | repeat constructor].
Defined.

(** X2: When no request fails and the branch, its head commit and its tree
    exist, [commitFileToBranch] succeeds; afterwards the branch holds the
    content at the path, every other file of every branch and every other
    ref are as before, and the branch points to a new commit whose only
    parent is the old head; every id the refs, commits and trees point to stays below the id counter. *)
Theorem commitFileToBranch_writes b p c w h cm t :
  failing w = [] -> ids_below w ->
  lookup String.eqb b (refs w) = Some h ->
  lookup Nat.eqb h (git_commits w) = Some cm ->
  lookup Nat.eqb (commit_tree cm) (git_trees w) = Some t ->
  let w' := snd (commitFileToBranch b p c w) in
  fst (commitFileToBranch b p c w) = Ok tt /\
  file_at w' p b = Some c /\
  (forall b' p', b' <> b \/ p' <> p -> file_at w' p' b' = file_at w p' b') /\
  (forall b', b' <> b -> lookup String.eqb b' (refs w') = lookup String.eqb b' (refs w)) /\
  (exists n tr, lookup String.eqb b (refs w') = Some n /\ n <> h /\
                lookup Nat.eqb n (git_commits w') = Some (mkCommit tr [h])) /\
  ids_below w'.
Proof.
  intros Hf Hids Hb Hh Ht w'.
  destruct (commitFileToBranch_file_at b p c w h cm t Hf Hb Hh Ht) as [Hok [Hfile _]].
  pose proof (commitFileToBranch_other_files b p c w h cm t Hf Hids Hb Hh Ht) as Hother.
  split; [exact Hok|]. split; [exact Hfile|]. split; [exact Hother|].
  destruct Hids as [Hr [Hc Ht0]]. subst w'.
  rewrite (commitFileToBranch_ok b p c w h cm t Hf Hb Hh Ht). cbn [fst snd].
  set (n := next_id w).
  assert (Hhn : (h < n)%nat) by exact (lookup_Forall _ (fun c => (c < n)%nat) _ _ _ Hr Hb).
  assert (Hbb : lookup String.eqb b (update String.eqb b (S (S n)) (refs w)) = Some (S (S n)))
    by (apply lookup_update_same; congruence).
  split.
  { intros b' Hb'. cbn [refs]. apply lookup_update_other, Hb'. }
  split.
  { exists (S (S n)), (S n). cbn [refs git_commits]. split; [exact Hbb|]. split; [lia|].
    simpl. rewrite Nat.eqb_refl. reflexivity. }
  unfold ids_below. cbn [refs git_commits git_trees next_id]. split; [|split].
  - clear -Hr. induction Hr as [|[k x] l Hx Hl IH]; simpl in *; [constructor|].
    destruct (String.eqb b k); constructor; simpl; try lia; auto.
    eapply Forall_impl; [|exact Hl]. simpl. intros. lia.
  - constructor; [simpl; lia|]. eapply Forall_impl; [|exact Hc]. simpl. intros. lia.
  - constructor.
    + simpl. constructor; [simpl; lia|].
      pose proof (lookup_Forall _ (fun t1 => Forall (fun pb => (snd pb < n)%nat) t1) _ _ _ Ht0 Ht) as H.
      apply Forall_forall. intros x Hx. apply filter_In in Hx as [Hx _].
      rewrite Forall_forall in H. specialize (H x Hx). lia.
    + eapply Forall_impl; [|exact Ht0]. simpl. intros ? H. eapply Forall_impl; [|exact H].
      simpl. intros. lia.
Qed.

Lemma commitFileToBranch_writes_witness :
  let w' := snd (commitFileToBranch "repository-insights" "a/stats.json" "[]" two_branch_world) in
  fst (commitFileToBranch "repository-insights" "a/stats.json" "[]" two_branch_world) = Ok tt /\
  file_at w' "a/stats.json" "repository-insights" = Some "[]" /\
  (forall b' p', b' <> "repository-insights" \/ p' <> "a/stats.json" ->
     file_at w' p' b' = file_at two_branch_world p' b') /\
  (forall b', b' <> "repository-insights" ->
     lookup String.eqb b' (refs w') = lookup String.eqb b' (refs two_branch_world)) /\
  (exists n tr, lookup String.eqb "repository-insights" (refs w') = Some n /\ n <> 1%nat /\
                lookup Nat.eqb n (git_commits w') = Some (mkCommit tr [1%nat])) /\
  ids_below w'.
Proof.
  apply (commitFileToBranch_writes "repository-insights" "a/stats.json" "[]" two_branch_world
           1%nat (mkCommit 0 []) []).
  - reflexivity.
  - exact ids_below_two_branch_world.
  - reflexivity.
  - reflexivity.
  - reflexivity.
Defined.

(** X3: When [commitFileToBranch] does not succeed, whichever of its
    requests fails, no ref has moved. *)
Lemma commitFileToBranch_failed_keeps_refs b p c w :
  fst (commitFileToBranch b p c w) <> Ok tt ->
  refs (snd (commitFileToBranch b p c w)) = refs w.
Proof.
  intros Hfail. destruct (fst (commitFileToBranch b p c w)) as [[]|e] eqn:E; [congruence|].
  enough (H : safe_refs (commitFileToBranch b p c)) by exact (H w e E).
  unfold commitFileToBranch.
  repeat (apply safe_refs_bind; [|intros]); try apply safe_refs_updateRef.
  all: apply keeps_refs_request; intros w0; unfold ret; try reflexivity.
  all: repeat match goal with |- context [match ?x with _ => _ end] => destruct x end; reflexivity.
Qed.

Lemma commitFileToBranch_failed_keeps_refs_witness :
  refs (snd (commitFileToBranch "main" "a/stats.json" "[]"
               (sample_world [("main", 1%nat)] [(ECreateTree, 500%Z)]))) =
  refs (sample_world [("main", 1%nat)] [(ECreateTree, 500%Z)]).
Proof.
  apply commitFileToBranch_failed_keeps_refs. vm_compute. discriminate.
Defined.

(** X4: Round trip: after [commitFileToBranch] stores the encoding of a dataset
    at the path of a format, [getInsightsFile] on that branch returns the same
    text with the number of records as [insightsCount]. *)
Theorem commit_then_load branch rootDir owner repo fmt D w h cm t :
  Forall valid_entry D ->
  failing w = [] ->
  lookup String.eqb branch (refs w) = Some h ->
  lookup Nat.eqb h (git_commits w) = Some cm ->
  lookup Nat.eqb (commit_tree cm) (git_trees w) = Some t ->
  let w' := snd (commitFileToBranch branch (filePath rootDir owner repo (format_name fmt))
                   (encode fmt D) w) in
  fst (commitFileToBranch branch (filePath rootDir owner repo (format_name fmt)) (encode fmt D) w)
    = Ok tt /\
  fst (getInsightsFile branch rootDir owner repo (format_name fmt) w')
    = Ok (encode fmt D, Some (Z.of_nat (length D))).
Proof.
  intros HD Hf Hb Hh Ht w'.
  destruct (commitFileToBranch_file_at branch (filePath rootDir owner repo (format_name fmt))
              (encode fmt D) w h cm t Hf Hb Hh Ht) as [Hok [Hfile _]].
  split; [exact Hok|]. subst w'.
  rewrite (getInsightsFile_encoded branch rootDir owner repo fmt D _ HD); [reflexivity| |exact Hfile].
  rewrite (commitFileToBranch_failing_ok _ _ _ w h cm t Hf Hb Hh Ht). reflexivity.
Qed.

Lemma commit_then_load_witness :
  let D := [sample_entry "2024-03-01" 1] in
  let w' := snd (commitFileToBranch "repository-insights" (filePath ".insights" "o" "r" (format_name Csv))
                   (encode Csv D) two_branch_world) in
  fst (commitFileToBranch "repository-insights" (filePath ".insights" "o" "r" (format_name Csv))
         (encode Csv D) two_branch_world) = Ok tt /\
  fst (getInsightsFile "repository-insights" ".insights" "o" "r" (format_name Csv) w')
    = Ok (encode Csv D, Some (Z.of_nat (length D))).
Proof.
  apply (commit_then_load "repository-insights" ".insights" "o" "r" Csv [sample_entry "2024-03-01" 1]
           two_branch_world 1%nat (mkCommit 0 []) []).
  - repeat constructor.
  - reflexivity.
  - reflexivity.
  - reflexivity.
  - reflexivity.
Defined.

(** X5: When the lookup of the branch fails with a status other than 404,
    [ensureBranchExists] rethrows it wrapped as a branch-check error, after
    that single request. *)
Theorem ensureBranchExists_other_status b w st :
  lookup endpoint_beq EGetRef (failing w) = Some st -> st <> 404%Z ->
  ensureBranchExists b w = (Err (BranchCheckError (HttpError st)), log (GetRef b) w).
Proof.
  intros Hf Hst. unfold ensureBranchExists.
  erewrite try_catch_err by (apply bind_err; unfold getRef; apply request_fail; exact Hf).
  cbv beta iota. apply Z.eqb_neq in Hst. rewrite Hst. reflexivity.
Qed.

Lemma ensureBranchExists_other_status_witness :
  ensureBranchExists "repository-insights" (sample_world [("main", 1%nat)] [(EGetRef, 500%Z)]) =
  (Err (BranchCheckError (HttpError 500)),
   log (GetRef "repository-insights") (sample_world [("main", 1%nat)] [(EGetRef, 500%Z)])).
Proof.
  apply ensureBranchExists_other_status; [reflexivity | discriminate].
Defined.

(** X6: When the branch and [main] are both missing, [ensureBranchExists]
    fails with the 404 of the [main] lookup, not wrapped, and creates no ref. *)
Theorem ensureBranchExists_main_missing b w :
  lookup endpoint_beq EGetRef (failing w) = None ->
  lookup String.eqb b (refs w) = None ->
  lookup String.eqb "main" (refs w) = None ->
  ensureBranchExists b w = (Err (HttpError 404), log (GetRef "main") (log (GetRef b) w)).
Proof.
  intros Hf Hb Hm. unfold ensureBranchExists.
  erewrite try_catch_err by (erewrite bind_err by (apply getRef_missing; eassumption); reflexivity).
  cbv beta iota. rewrite Z.eqb_refl.
  erewrite bind_err by (apply getRef_missing; [exact Hf | exact Hm]). reflexivity.
Qed.

Lemma ensureBranchExists_main_missing_witness :
  ensureBranchExists "repository-insights" (sample_world [("dev", 1%nat)] []) =
  (Err (HttpError 404),
   log (GetRef "main") (log (GetRef "repository-insights") (sample_world [("dev", 1%nat)] []))).
Proof.
  apply ensureBranchExists_main_missing; reflexivity.
Defined.

(** X7: [getRepoStats] counts at most one contributor per history node that has
    a user, and counts none exactly when no node has a user. *)
Theorem contributorsCount_bounds r :
  (N.to_nat (contributorsCount (stats_of_response r)) <= length (filter is_user (history_users r)))%nat /\
  (contributorsCount (stats_of_response r) = 0%N <-> Forall (fun u => u = None) (history_users r)).
Proof.
  unfold stats_of_response. cbn [contributorsCount].
  set (logins := flat_map _ (history_users r)).
  split.
  - rewrite Nat2N.id. unfold logins. rewrite <- logins_length. apply nodup_length_le.
  - split.
    + intros H0. apply Forall_forall. intros [u|] Hu; [|reflexivity]. exfalso.
      assert (Hin : In u (nodup string_dec logins)).
      { apply nodup_In. unfold logins. apply in_flat_map. exists (Some u). split; [exact Hu|left; reflexivity]. }
      destruct (nodup string_dec logins); [contradiction|]. cbn [length] in H0. lia.
    + intros H. assert (E : logins = []).
      { unfold logins. induction H as [|u us Hu _ IH]; [reflexivity|]. subst u. exact IH. }
      rewrite E. reflexivity.
Qed.

(** X8: The outputs [setOutputs] sets are the columns of a record other than the
    date, with the values [generateFileContent] writes for the same day,
    in its CSV line and in its JSON object. *)
Theorem setOutputs_match_entry d s tr cl :
  map fst (setOutputs s tr cl) = tl csvHeaders /\
  forall name v, In (name, v) (setOutputs s tr cl) ->
    entry_field (make_entry d s tr cl) name = string_of_N v /\
    assoc name (match entry_json (make_entry d s tr cl) with JObj m => m | _ => [] end)
      = Some (JNum (Z.of_N v)).
Proof.
  split; [reflexivity|].
  intros name v H. cbn [setOutputs In] in H.
  repeat destruct H as [H|H]; try contradiction; injection H as <- <-; split; reflexivity.
Qed.

(** X9: [run] depends on the format input only up to letter case: lowering the
    input (A-Z and the Latin-1 capitals, over strings of code points
    U+0000-U+00FF) leaves the whole run unchanged. *)
Theorem run_format_case_insensitive inp w :
  run inp w =
  run (mkInputs (in_owner inp) (in_repository inp) (in_directory inp) (in_branch inp)
         (toLowerCase (in_format inp)) (in_day inp)) w.
Proof.
  unfold run, run_body. cbn [in_owner in_repository in_directory in_branch in_format in_day].
  rewrite toLowerCase_or_default. reflexivity.
Qed.

(** X10: [run] never creates or moves a ref other than the storage branch,
    whether it succeeds or fails. *)
Theorem run_touches_only_branch inp w b' :
  b' <> or_default (in_branch inp) "repository-insights" ->
  lookup String.eqb b' (refs (snd (run inp w))) = lookup String.eqb b' (refs w).
Proof.
  revert w b'. apply touches_only_try_catch; [|intros; apply touches_only_keeps, keeps_refs_setFailed].
  unfold run_body. cbv zeta.
  apply touches_only_bind; [apply touches_only_getRepoStats|intros s].
  apply touches_only_bind; [apply touches_only_ensureBranchExists|intros _].
  apply touches_only_bind; [apply touches_only_getInsightsFile|intros [insightsFile insightsCount]].
  destruct (classify _) as [fmt|]; [|apply touches_only_keeps, keeps_refs_throw].
  apply touches_only_bind.
  { unfold backfill. destruct (lt14 insightsCount);
      [apply touches_only_backfill_loop | apply touches_only_keeps, keeps_refs_ret]. }
  intros f'. unfold getYesterdayTraffic, getYesterdayClones.
  apply touches_only_bind; [apply touches_only_keeps; eauto with touches|intros].
  apply touches_only_bind; [apply touches_only_keeps; eauto with touches|intros].
  apply touches_only_bind; [apply touches_only_keeps, keeps_refs_lift|intros].
  apply touches_only_commitFileToBranch.
Qed.

Lemma run_touches_only_branch_witness :
  lookup String.eqb "main" (refs (snd (run (sample_inputs "csv") (sample_world [("main", 1%nat)] [])))) =
  lookup String.eqb "main" (refs (sample_world [("main", 1%nat)] [])).
Proof.
  apply run_touches_only_branch. discriminate.
Defined.

(** X11: For a repository whose GraphQL answer has a default branch and an
    author on every history node (the answers [repository_info] represents;
    an empty repository, whose [defaultBranchRef] is null, makes
    [getRepoStats] throw before anything is read or committed): when no
    request fails and the stored file holds a dataset (or is
    missing), [run] succeeds and commits, as a child of the old head, the
    dataset with the backfilled days (when it had fewer than 14 records) and
    then yesterday upserted in order. *)
Theorem run_commits_dataset inp w fmt D h cm t :
  let branch := or_default (in_branch inp) "repository-insights" in
  let format := toLowerCase (or_default (in_format inp) "json") in
  let path := filePath (or_default (in_directory inp) ".insights") (in_owner inp) (in_repository inp)
                format in
  classify format = Some fmt ->
  failing w = [] ->
  lookup String.eqb branch (refs w) = Some h ->
  lookup Nat.eqb h (git_commits w) = Some cm ->
  lookup Nat.eqb (commit_tree cm) (git_trees w) = Some t ->
  file_at w path branch = Some (encode fmt D) \/ (file_at w path branch = None /\ D = []) ->
  Forall valid_entry D ->
  (forall i, (1 <= i <= 14)%nat -> valid_date (in_day inp i) = true) ->
  let D' := fold_left upsert_entries
              ((if (length D <? 14)%nat then map (day_record inp w) (offsets 14) else []) ++
               [day_record inp w 1%nat])%list D in
  run inp w = run_body inp w /\ fst (run inp w) = Ok tt /\
  file_at (snd (run inp w)) path branch = Some (encode fmt D') /\
  (exists n tr, lookup String.eqb branch (refs (snd (run inp w))) = Some n /\
                lookup Nat.eqb n (git_commits (snd (run inp w))) = Some (mkCommit tr [h])).
Proof.
  intros branch format path Hc Hf Hb Hh Ht Hstored HD Hdays D'.
  pose proof (classify_format_name _ _ Hc) as Hfmt.
  assert (HfG : lookup endpoint_beq EGraphql (failing w) = None) by (rewrite Hf; reflexivity).
  assert (HfR : lookup endpoint_beq EGetRef (failing w) = None) by (rewrite Hf; reflexivity).
  assert (HfC : lookup endpoint_beq EGetContent (failing w) = None) by (rewrite Hf; reflexivity).
  assert (HfV : lookup endpoint_beq EGetViews (failing w) = None) by (rewrite Hf; reflexivity).
  assert (HfK : lookup endpoint_beq EGetClones (failing w) = None) by (rewrite Hf; reflexivity).
  set (s := stats_of_response (repository w)).
  set (w2 := log (GetRef branch) (log Graphql w)).
  (* loading the dataset *)
  assert (Hload : exists f0, represents fmt f0 D /\
    getInsightsFile branch (or_default (in_directory inp) ".insights") (in_owner inp) (in_repository inp)
      format w2 = (Ok (f0, Some (Z.of_nat (length D))), log (GetContent path branch) w2)).
  { destruct Hstored as [Hs | [Hs ->]].
    - exists (encode fmt D). split; [apply represents_encode, HD|].
      subst path. rewrite Hfmt in *. apply getInsightsFile_encoded; assumption.
    - exists (empty_file fmt). split; [apply represents_empty_file|].
      apply getInsightsFile_fallback with (1 := Hc). left. eexists.
      apply getContent_missing; assumption. }
  destruct Hload as [f0 [Hf0 Hload]].
  set (w3 := log (GetContent path branch) w2).
  set (recs := if (length D <? 14)%nat then map (day_record inp w) (offsets 14) else []).
  assert (Hrecs : Forall valid_entry recs).
  { subst recs. destruct (length D <? 14)%nat; [|constructor].
    apply Forall_forall. intros r Hr. apply in_map_iff in Hr as [i [<- Hi]].
    apply day_record_valid, Hdays. cbn in Hi. lia. }
  (* the backfill *)
  assert (Hback : exists f1 tr, represents fmt f1 (fold_left upsert_entries recs D) /\
            backfill (in_day inp) s fmt (Some (Z.of_nat (length D))) f0 w3 = (Ok f1, with_trace w tr)).
  { destruct (upsert_all_represents fmt recs f0 D Hf0 HD Hrecs) as [f1 [Hup [Hr1 _]]].
    unfold backfill, lt14. change 14%Z with (Z.of_nat 14). rewrite Z_of_nat_ltb. subst recs.
    destruct (length D <? 14)%nat eqn:Elt.
    - exists f1. rewrite backfill_loop_foldM by lia.
      destruct (foldM_days (in_day inp) s fmt (offsets 14) f0 w3 HfV HfK) as [H1 _].
      pose proof (foldM_days_store (in_day inp) s fmt (offsets 14) f0 w3 HfV HfK) as H2.
      assert (H1' : fst (foldM (backfill_day (in_day inp) s fmt) f0 (offsets 14) w3) = Ok f1)
        by (rewrite H1; exact Hup).
      eexists. split; [exact Hr1|].
      rewrite (surjective_pairing (foldM _ _ _ _)), H1', H2. reflexivity.
    - cbn in Hup. injection Hup as <-. exists f0, (trace w3). split; [exact Hr1|]. reflexivity. }
  destruct Hback as [f1 [tr [Hf1 Hback]]].
  assert (HD1 : Forall valid_entry (fold_left upsert_entries recs D)).
  { destruct (upsert_all_represents fmt recs f0 D Hf0 HD Hrecs) as [? [_ [_ H]]]. exact H. }
  assert (HR : valid_entry (day_record inp w 1%nat)) by (apply day_record_valid, Hdays; lia).
  assert (Hgen : generateFileContent f1 s (find_day (in_day inp 1%nat) (views w))
                   (find_day (in_day inp 1%nat) (clones w)) (in_day inp 1%nat) fmt = Ok (encode fmt D')).
  { rewrite <- upsert_make_entry. subst D'. rewrite fold_left_app. cbn [fold_left].
    apply (upsert_represents fmt f1 _ (day_record inp w 1%nat) Hf1 HD1 HR). }
  set (w6 := log GetClones (log GetViews (with_trace w tr))).
  assert (Hbody : run_body inp w = commitFileToBranch branch path (encode fmt D') w6).
  { unfold run_body. cbv zeta. fold branch format.
    erewrite bind_ok by (apply getRepoStats_ok, HfG). fold s.
    erewrite bind_ok by (apply ensure_present with (h := h); assumption). fold w2.
    erewrite bind_ok by exact Hload. cbv beta iota. rewrite Hc.
    erewrite bind_ok by exact Hback.
    erewrite bind_ok by (apply getYesterdayTraffic_ok; exact HfV).
    erewrite bind_ok by (apply getYesterdayClones_ok; exact HfK).
    erewrite bind_ok by (unfold lift; cbn [views clones with_trace log]; rewrite Hgen; reflexivity).
    reflexivity. }
  destruct (commitFileToBranch_file_at branch path (encode fmt D') w6 h cm t Hf Hb Hh Ht)
    as [Hok [Hfile Hhead]].
  assert (Hrun : run inp w = run_body inp w).
  { unfold run, try_catch. rewrite Hbody, (surjective_pairing (commitFileToBranch _ _ _ _)), Hok.
    reflexivity. }
  rewrite Hrun, Hbody. split; [reflexivity|]. split; [exact Hok|]. split; [exact Hfile | exact Hhead].
Qed.

Lemma run_commits_dataset_witness :
  let inp := sample_inputs "csv" in
  let w := two_branch_world in
  let branch := or_default (in_branch inp) "repository-insights" in
  let format := toLowerCase (or_default (in_format inp) "json") in
  let path := filePath (or_default (in_directory inp) ".insights") (in_owner inp) (in_repository inp)
                format in
  let D' := fold_left upsert_entries
              ((if (length (@nil entry) <? 14)%nat then map (day_record inp w) (offsets 14) else []) ++
               [day_record inp w 1%nat])%list [] in
  run inp w = run_body inp w /\ fst (run inp w) = Ok tt /\
  file_at (snd (run inp w)) path branch = Some (encode Csv D') /\
  (exists n tr, lookup String.eqb branch (refs (snd (run inp w))) = Some n /\
                lookup Nat.eqb n (git_commits (snd (run inp w))) = Some (mkCommit tr [1%nat])).
Proof.
  apply (run_commits_dataset (sample_inputs "csv") two_branch_world Csv [] 1%nat (mkCommit 0 []) []).
  - reflexivity.
  - reflexivity.
  - reflexivity.
  - reflexivity.
  - reflexivity.
  - right. split; reflexivity.
  - constructor.
  - intros i Hi. do 15 (destruct i as [|i]; [first [lia | reflexivity] |]). lia.
Defined.



(** X13: In the older version, with no directory input, [getInsightsFile] reads
    [owner/repository/stats.format] while [commitFileToBranch] writes
    [data/owner/repository/stats.format]: a commit never changes what the
    next read returns, on any branch. *)
Theorem old_commit_not_read inp b c w h cm t :
  in_directory inp = "" ->
  simple_segment (in_owner inp) = true -> simple_segment (in_repository inp) = true ->
  no_slash (old_format inp) = true ->
  failing w = [] -> ids_below w ->
  lookup String.eqb b (refs w) = Some h ->
  lookup Nat.eqb h (git_commits w) = Some cm ->
  lookup Nat.eqb (commit_tree cm) (git_trees w) = Some t ->
  old_read_path inp = join "/" [in_owner inp; in_repository inp; "stats." ++ old_format inp] /\
  old_write_path inp = "data/" ++ old_read_path inp /\
  fst (old_commitFileToBranch inp b c w) = Ok tt /\
  file_at (snd (old_commitFileToBranch inp b c w)) (old_write_path inp) b = Some c /\
  forall b', fst (old_getInsightsFile inp b' (snd (old_commitFileToBranch inp b c w)))
             = fst (old_getInsightsFile inp b' w).
Proof.
  intros Hd Ho Hr Hfmt Hf Hids Hb Hh Ht.
  destruct (old_paths_no_directory inp Hd Ho Hr Hfmt) as [Er Ew].
  assert (Hne : old_read_path inp <> old_write_path inp).
  { assert (Hl : String.length (old_write_path inp) = 5 + String.length (old_read_path inp)).
    { rewrite Ew, Er.
      change (join "/" ["data"; in_owner inp; in_repository inp; "stats." ++ old_format inp])
        with ("data/" ++ join "/" [in_owner inp; in_repository inp; "stats." ++ old_format inp]).
      rewrite string_length_app. reflexivity. }
    intros E. rewrite E in Hl. lia. }
  destruct (commitFileToBranch_file_at b (old_write_path inp) c w h cm t Hf Hb Hh Ht)
    as [Hok [Hfile _]].
  split; [exact Er|]. split; [rewrite Ew, Er; reflexivity|].
  split; [exact Hok|]. split; [exact Hfile|].
  intros b'. apply old_getInsightsFile_depends.
  - unfold old_commitFileToBranch. rewrite (commitFileToBranch_ok b _ c w h cm t Hf Hb Hh Ht). reflexivity.
  - apply (commitFileToBranch_other_files b (old_write_path inp) c w h cm t Hf Hids Hb Hh Ht).
    right. exact Hne.
Qed.

Lemma old_commit_not_read_witness :
  let inp := sample_inputs "json" in
  let w := sample_world [("main", 1%nat)] [] in
  old_read_path inp = join "/" [in_owner inp; in_repository inp; "stats." ++ old_format inp] /\
  old_write_path inp = "data/" ++ old_read_path inp /\
  fst (old_commitFileToBranch inp "main" "[]" w) = Ok tt /\
  file_at (snd (old_commitFileToBranch inp "main" "[]" w)) (old_write_path inp) "main" = Some "[]" /\
  forall b', fst (old_getInsightsFile inp b' (snd (old_commitFileToBranch inp "main" "[]" w)))
             = fst (old_getInsightsFile inp b' w).
Proof.
  apply (old_commit_not_read (sample_inputs "json") "main" "[]" (sample_world [("main", 1%nat)] [])
           1%nat (mkCommit 0 []) []); try reflexivity.
  unfold ids_below. cbn. repeat constructor; cbn; lia.
Defined.
